(** * Session lifecycle of the Firebase-auth tRPC service

    A shallow embedding of
      - [src/server/api/routers/auth/auth-service.ts]
      - [src/server/api/routers/_lib/utils/cookie-management.ts]
    together with the parts of the JavaScript runtime and of the Redis
    sorted-set commands these two files rely on.

    Conventions.
      - A JavaScript [number] that holds an integer is a [Z]. [Date.now()]
        is a number of milliseconds.
      - A JavaScript string is the [string] of its UTF-8 bytes.
      - An [async] function is a computation in the monad [M] below: it
        reads and updates the world and either returns or throws.
      - One call of the service takes no time: every [Date.now()] in it
        reads the same clock, which is also the clock of the Redis server.
        Time passes between calls ([set_clock]). *)

From Stdlib Require Import ZArith Lia Bool Ascii String List Sorted.
From Stdlib Require Import Decimal DecimalString DecimalPos DecimalZ.
From stdpp Require Import base option list strings gmap.

#[local] Open Scope string_scope.
#[local] Open Scope Z_scope.

(* ===================================================================== *)
(** * The JavaScript runtime used by the sources *)
(* ===================================================================== *)

Module JS.

(** ** Numbers and their decimal form *)

(** [n.toString()] and the template literal [`${n}`] of an integral number. *)
Definition Number_toString (n : Z) : string :=
  NilZero.string_of_int (Z.to_int n).

Definition digit_of_char (c : ascii) : option (uint -> uint) :=
  match c with
  | "0" => Some D0 | "1" => Some D1 | "2" => Some D2 | "3" => Some D3
  | "4" => Some D4 | "5" => Some D5 | "6" => Some D6 | "7" => Some D7
  | "8" => Some D8 | "9" => Some D9 | _ => None
  end%char.

(** The longest prefix of decimal digits. *)
Fixpoint leading_digits (s : string) : uint :=
  match s with
  | EmptyString => Nil
  | String c r =>
      match digit_of_char c with
      | Some d => d (leading_digits r)
      | None => Nil
      end
  end.

Fixpoint skip_white_space (s : string) : string :=
  match s with
  | EmptyString => EmptyString
  | String c r => if Ascii.is_space c then skip_white_space r else s
  end.

Definition read_sign (s : string) : bool * string :=
  match s with
  | String "-" r => (true, r)
  | String "+" r => (false, r)
  | _ => (false, s)
  end.

(** [parseInt(s, 10)]: leading white space is skipped, a sign is read, then
    the longest run of digits; [None] stands for [NaN]. *)
Definition parseInt (s : string) : option Z :=
  let signed := read_sign (skip_white_space s) in
  match leading_digits signed.2 with
  | Nil => None
  | d => Some (if signed.1 then - Z.of_uint d else Z.of_uint d)
  end.

(** [x > y] where [x] may be [NaN]: every comparison with [NaN] is false. *)
Definition gt_number (x : option Z) (y : Z) : bool :=
  match x with
  | Some v => y <? v
  | None => false
  end.

(** ** encodeURIComponent and decodeURIComponent *)

Definition hex_digit (n : N) : ascii :=
  match n with
  | 0 => "0" | 1 => "1" | 2 => "2" | 3 => "3" | 4 => "4" | 5 => "5"
  | 6 => "6" | 7 => "7" | 8 => "8" | 9 => "9" | 10 => "A" | 11 => "B"
  | 12 => "C" | 13 => "D" | 14 => "E" | _ => "F"
  end%N%char.

Definition hex_value (c : ascii) : option N :=
  let n := N_of_ascii c in
  (if (48 <=? n) && (n <=? 57) then Some (n - 48)
  else if (65 <=? n) && (n <=? 70) then Some (n - 55)
  else if (97 <=? n) && (n <=? 102) then Some (n - 87)
  else None)%N.

(** The characters [encodeURIComponent] leaves alone:
    [A-Z a-z 0-9 - _ . ! ~ * ' ( )]. *)
Definition uri_unreserved (c : ascii) : bool :=
  let n := N_of_ascii c in
  (((48 <=? n) && (n <=? 57)) || ((65 <=? n) && (n <=? 90))
  || ((97 <=? n) && (n <=? 122))
  || (n =? 45) || (n =? 95) || (n =? 46) || (n =? 33) || (n =? 126)
  || (n =? 42) || (n =? 39) || (n =? 40) || (n =? 41))%N.

Definition percent_escape (c : ascii) : string :=
  let n := N_of_ascii c in
  String "%" (String (hex_digit (n / 16)%N) (String (hex_digit (n mod 16)%N) "")).

(** Every byte of the UTF-8 form that is not unreserved is escaped. *)
Fixpoint encodeURIComponent (s : string) : string :=
  match s with
  | EmptyString => EmptyString
  | String c r =>
      (if uri_unreserved c then String c "" else percent_escape c)
      +:+ encodeURIComponent r
  end.

(** The input of [decodeURIComponent] split into units: a byte written as
    itself ([false]) or as a [%XX] escape ([true]). [None] when a [%] is not
    followed by two hexadecimal digits. *)
Fixpoint uri_units (s : string) : option (list (bool * ascii)) :=
  match s with
  | EmptyString => Some []
  | String c r =>
      if Ascii.eqb c "%" then
        match r with
        | String h (String l r') =>
            match hex_value h, hex_value l with
            | Some a, Some b =>
                match uri_units r' with
                | Some us => Some ((true, ascii_of_N (16 * a + b)%N) :: us)
                | None => None
                end
            | _, _ => None
            end
        | _ => None
        end
      else
        match uri_units r with
        | Some us => Some ((false, c) :: us)
        | None => None
        end
  end.

(** The continuation bytes a UTF-8 lead byte asks for, each with the range
    it must fall in (this excludes overlong forms, surrogates and code points
    above U+10FFFF). *)
Definition utf8_lead (n : N) : option (list (N * N)) :=
  (if (194 <=? n) && (n <=? 223) then Some [(128, 191)]
  else if n =? 224 then Some [(160, 191); (128, 191)]
  else if (225 <=? n) && (n <=? 236) then Some [(128, 191); (128, 191)]
  else if n =? 237 then Some [(128, 159); (128, 191)]
  else if (238 <=? n) && (n <=? 239) then Some [(128, 191); (128, 191)]
  else if n =? 240 then Some [(144, 191); (128, 191); (128, 191)]
  else if (241 <=? n) && (n <=? 243) then Some [(128, 191); (128, 191); (128, 191)]
  else if n =? 244 then Some [(128, 143); (128, 191); (128, 191)]
  else None)%N.

(** An escaped byte above 127 must start a well-formed UTF-8 sequence all of
    whose bytes are escaped. *)
Fixpoint utf8_escapes_ok (pending : list (N * N)) (us : list (bool * ascii)) : bool :=
  match us with
  | [] => match pending with [] => true | _ => false end
  | (escaped, c) :: r =>
      let n := N_of_ascii c in
      match pending with
      | (lo, hi) :: p => escaped && (lo <=? n) && (n <=? hi) && utf8_escapes_ok p r
      | [] =>
          if negb escaped || (n <? 128) then utf8_escapes_ok [] r
          else match utf8_lead n with
               | Some p => utf8_escapes_ok p r
               | None => false
               end
      end
  end%N.

(** [decodeURIComponent(s)]; [None] stands for the [URIError] it throws. *)
Definition decodeURIComponent (s : string) : option string :=
  match uri_units s with
  | Some us =>
      if utf8_escapes_ok [] us
      then Some (string_of_list_ascii (map snd us))
      else None
  | None => None
  end.

Definition is_ascii (s : string) : bool :=
  forallb (fun c => (N_of_ascii c <? 128)%N) (list_ascii_of_string s).

(** ** Date *)

Definition pad2 (n : Z) : string :=
  if n <? 10 then "0" +:+ Number_toString n else Number_toString n.

(** A year on at least four digits, as in the date strings of ECMAScript. *)
Definition pad4 (n : Z) : string :=
  let a := Z.abs n in
  (if n <? 0 then "-" else "") +:+
  (if a <? 10 then "000" else if a <? 100 then "00" else if a <? 1000 then "0" else "")
  +:+ Number_toString a.

Definition week_day_name (d : Z) : string :=
  nth (Z.to_nat d) ["Sun"; "Mon"; "Tue"; "Wed"; "Thu"; "Fri"; "Sat"] "".

Definition month_name (m : Z) : string :=
  nth (Z.to_nat (m - 1))
    ["Jan"; "Feb"; "Mar"; "Apr"; "May"; "Jun";
     "Jul"; "Aug"; "Sep"; "Oct"; "Nov"; "Dec"] "".

(** Year, month (1-12) and day of month of the day that is [days] days after
    1 January 1970, in the proleptic Gregorian calendar. *)
Definition civil_from_days (days : Z) : Z * Z * Z :=
  let z := days + 719468 in
  let era := z / 146097 in
  let doe := z - era * 146097 in
  let yoe := (doe - doe / 1460 + doe / 36524 - doe / 146096) / 365 in
  let doy := doe - (365 * yoe + yoe / 4 - yoe / 100) in
  let mp := (5 * doy + 2) / 153 in
  let d := doy - (153 * mp + 2) / 5 + 1 in
  let m := if mp <? 10 then mp + 3 else mp - 9 in
  let y := yoe + era * 400 in
  (if m <=? 2 then y + 1 else y, m, d).

(** [new Date(ms).toUTCString()]. A time value beyond 8.64e15 ms from the
    epoch makes an invalid date. *)
Definition Date_toUTCString (ms : Z) : string :=
  if 8640000000000000 <? Z.abs ms then "Invalid Date"
  else
    let days := ms / 86400000 in
    let secs := (ms mod 86400000) / 1000 in
    let '(y, m, d) := civil_from_days days in
    week_day_name ((days + 4) mod 7) +:+ ", " +:+ pad2 d +:+ " "
    +:+ month_name m +:+ " " +:+ pad4 y +:+ " "
    +:+ pad2 (secs / 3600) +:+ ":" +:+ pad2 (secs / 60 mod 60) +:+ ":"
    +:+ pad2 (secs mod 60) +:+ " GMT".

End JS.

(* ===================================================================== *)
(** * The Redis server: sorted sets with a time to live *)
(* ===================================================================== *)

Module Redis.

(** A sorted set is the list of its (member, score) pairs. The server keeps
    it ordered by score, members of equal score by the bytes of the member;
    the rank of a member is its position in that order. Scores are the
    integral ones (the only ones the service writes). *)
Abbreviation zset := (list (string * Z)).

Record RedisKey := {
  members : zset;
  expire_at : option Z   (* absolute time in ms, [None]: no time to live *)
}.

Inductive Cmd :=
| ZADD (key score member : string)
| ZCOUNT (key min max : string)
| EXPIRE (key : string) (seconds : Z)
| ZREMRANGEBYRANK (key : string) (start stop : Z)
| ZREM (key member : string)
| ZSCORE (key member : string).

Inductive Reply :=
| RInt (n : Z)
| RBulk (s : string)
| RNil
| RErr (message : string).

Definition entry_le (a b : string * Z) : bool :=
  (a.2 <? b.2) || ((a.2 =? b.2) && String.leb a.1 b.1).

Fixpoint zinsert (e : string * Z) (l : zset) : zset :=
  match l with
  | [] => [e]
  | x :: r => if entry_le e x then e :: l else x :: zinsert e r
  end.

Definition zsort (l : zset) : zset := foldr zinsert [] l.

(** In the order of the server: each member ranks before the next one. *)
Definition ranked : zset -> Prop := Sorted (fun a b => entry_le a b = true).

Definition zremove (member : string) (l : zset) : zset :=
  filter (fun e => e.1 ≠ member) l.

Fixpoint zfind (member : string) (l : zset) : option Z :=
  match l with
  | [] => None
  | e :: r => if decide (e.1 = member) then Some e.2 else zfind member r
  end.

(** The score the server reads from an argument, and the way it writes a
    score in a reply. *)
Definition parse_score (s : string) : option Z :=
  Z.of_int <$> NilZero.int_of_string s.

Definition format_score (z : Z) : string :=
  NilZero.string_of_int (Z.to_int z).

Inductive Bound := NegInf | PosInf | Finite (z : Z).

Definition parse_bound (s : string) : option Bound :=
  if String.eqb s "-inf" then Some NegInf
  else if String.eqb s "+inf" || String.eqb s "inf" then Some PosInf
  else Finite <$> parse_score s.

Definition in_bounds (lo hi : Bound) (z : Z) : bool :=
  match lo with NegInf => true | PosInf => false | Finite l => l <=? z end
  && match hi with NegInf => false | PosInf => true | Finite h => z <=? h end.

(** A key whose time to live has run out is gone for every command. *)
Definition expired (now : Z) (k : RedisKey) : bool :=
  match expire_at k with
  | Some t => t <? now
  | None => false
  end.

Definition live (now : Z) (db : gmap string RedisKey) (key : string)
  : option RedisKey :=
  match db !! key with
  | Some k => if expired now k then None else Some k
  | None => None
  end.

Definition live_members (now : Z) (db : gmap string RedisKey) (key : string) : zset :=
  from_option members [] (live now db key).

Definition live_expire (now : Z) (db : gmap string RedisKey) (key : string) : option Z :=
  live now db key ≫= expire_at.

(** A sorted set that becomes empty is deleted with its key. *)
Definition store (key : string) (ms : zset) (ttl : option Z)
    (db : gmap string RedisKey) : gmap string RedisKey :=
  match ms with
  | [] => delete key db
  | _ => <[key := {| members := ms; expire_at := ttl |}]> db
  end.

(** The sorted set without the ranks [start] to [stop], both inclusive and
    counted from the end when negative, and the number of members removed. *)
Definition remove_rank_range (start stop : Z) (ms : zset) : zset * Z :=
  let len := Z.of_nat (length ms) in
  let start := if start <? 0 then len + start else start in
  let stop := if stop <? 0 then len + stop else stop in
  let start := if start <? 0 then 0 else start in
  if (stop <? start) || (len <=? start) then (ms, 0)
  else
    let stop := if len <=? stop then len - 1 else stop in
    ((take (Z.to_nat start) ms ++ drop (Z.to_nat (stop + 1)) ms)%list,
     stop - start + 1).

(** One command run at server time [now]. *)
Definition run (now : Z) (c : Cmd) (db : gmap string RedisKey)
  : Reply * gmap string RedisKey :=
  match c with
  | ZADD key score member =>
      match parse_score score with
      | None => (RErr "ERR value is not a valid float", db)
      | Some s =>
          let ms := live_members now db key in
          (RInt (if is_Some_dec (zfind member ms) then 0 else 1),
           store key (zsort ((member, s) :: zremove member ms))
                 (live_expire now db key) db)
      end
  | ZCOUNT key min max =>
      match parse_bound min, parse_bound max with
      | Some lo, Some hi =>
          (RInt (Z.of_nat (length (filter (fun e => in_bounds lo hi e.2 = true)
                                          (live_members now db key)))), db)
      | _, _ => (RErr "ERR min or max is not a float", db)
      end
  | EXPIRE key seconds =>
      match live now db key with
      | None => (RInt 0, db)
      | Some k =>
          if seconds <=? 0 then (RInt 1, delete key db)
          else (RInt 1, <[key := {| members := members k;
                                    expire_at := Some (now + seconds * 1000) |}]> db)
      end
  | ZREMRANGEBYRANK key start stop =>
      match live now db key with
      | None => (RInt 0, db)
      | Some k =>
          let '(ms, removed) := remove_rank_range start stop (zsort (members k)) in
          if removed =? 0 then (RInt 0, db)
          else (RInt removed, store key ms (expire_at k) db)
      end
  | ZREM key member =>
      match live now db key with
      | None => (RInt 0, db)
      | Some k =>
          match zfind member (members k) with
          | None => (RInt 0, db)
          | Some _ => (RInt 1, store key (zremove member (members k)) (expire_at k) db)
          end
      end
  | ZSCORE key member =>
      match zfind member (live_members now db key) with
      | Some s => (RBulk (format_score s), db)
      | None => (RNil, db)
      end
  end.

(** Commands run one after the other, as a MULTI/EXEC block or a pipeline
    does: a command that fails does not stop the following ones. *)
Fixpoint run_all (now : Z) (cs : list Cmd) (db : gmap string RedisKey)
  : list Reply * gmap string RedisKey :=
  match cs with
  | [] => ([], db)
  | c :: r =>
      let '(reply, db) := run now c db in
      let '(replies, db) := run_all now r db in
      (reply :: replies, db)
  end.

(** The same with the command at [index] failing: it answers with the
    error [message] and does not run; the commands before and after it do,
    as in a MULTI/EXEC block where one command fails at run time. *)
Fixpoint run_all_but (index : nat) (message : string) (now : Z) (cs : list Cmd)
    (db : gmap string RedisKey) : list Reply * gmap string RedisKey :=
  match cs with
  | [] => ([], db)
  | c :: r =>
      match index with
      | O =>
          let '(replies, db) := run_all now r db in
          (RErr message :: replies, db)
      | S i =>
          let '(reply, db) := run now c db in
          let '(replies, db) := run_all_but i message now r db in
          (reply :: replies, db)
      end
  end.

End Redis.

Import JS Redis.

(* ===================================================================== *)
(** * The world the service runs in *)
(* ===================================================================== *)

Inductive ErrorCode := UNAUTHORIZED | INTERNAL_SERVER_ERROR.

(** What a [throw] carries. [TRPCError] (of [@trpc/server]) is declared as
    [class TRPCError extends Error]; [PlainError] is any other instance of
    [Error] (a [URIError], a Firebase or a database error); [NonError] is a
    thrown value that is not an [Error] at all. *)
Inductive Thrown :=
| TRPCError (code : ErrorCode) (message : string)
| PlainError (message : string)
| NonError (value : string).

Definition instanceof_Error (e : Thrown) : bool :=
  match e with
  | TRPCError _ _ | PlainError _ => true
  | NonError _ => false
  end.

Definition instanceof_TRPCError (e : Thrown) : bool :=
  match e with
  | TRPCError _ _ => true
  | _ => false
  end.

(** [error.message], read only where [error instanceof Error] holds. *)
Definition Error_message (e : Thrown) : string :=
  match e with
  | TRPCError _ m | PlainError m => m
  | NonError _ => ""
  end.

(** Modelled from the spec: the [User] type, declared in the profile
    repository ([user-repository.ts]), which is not among the sources. The
    spec gives it an opaque id, an email, a display name and an avatar URL;
    the service uses the id as a string. *)
Record User := {
  User_id : string;
  User_email : string;
  User_name : option string;
  User_imageUrl : option string
}.

(** The claims of a decoded identity token the service reads. [name] is
    untyped in the Firebase declaration. *)
Inductive Claim := ClaimString (s : string) | ClaimOther | ClaimUndefined.

Record DecodedIdToken := {
  token_email : option string;
  token_name : Claim;
  token_picture : option string
}.

Record UpsertArgs := {
  onCreate_email : string;
  onCreate_imageUrl : option string;
  onCreate_name : option string;
  onUpdate_imageUrl : option string;
  onUpdate_name : option string
}.

(** What went over the connection to Redis, in order. *)
Inductive Sent :=
| Transaction (cs : list Cmd)   (* MULTI cs EXEC *)
| Pipelined (cs : list Cmd)
| Single (c : Cmd).

Record World := {
  clock : Z;                          (* Date.now(), also the server's time *)
  db : gmap string RedisKey;
  sent : list Sent;
  users : list User;                  (* the rows of the profile store *)
  rng : nat;                          (* draws taken from the random sources *)
  headers : list (string * string)    (* the Headers object of the request *)
}.

Definition set_clock (t : Z) (w : World) : World :=
  {| clock := t; db := db w; sent := sent w; users := users w;
     rng := rng w; headers := headers w |}.

Definition set_users (us : list User) (w : World) : World :=
  {| clock := clock w; db := db w; sent := sent w; users := us;
     rng := rng w; headers := headers w |}.

Definition next_draw (w : World) : World :=
  {| clock := clock w; db := db w; sent := sent w; users := users w;
     rng := S (rng w); headers := headers w |}.

Definition send (what : Sent) (db' : gmap string RedisKey) (w : World) : World :=
  {| clock := clock w; db := db'; sent := (sent w ++ [what])%list;
     users := users w; rng := rng w; headers := headers w |}.

Definition append_header (name value : string) (w : World) : World :=
  {| clock := clock w; db := db w; sent := sent w; users := users w;
     rng := rng w; headers := (headers w ++ [(name, value)])%list |}.

(** ** Computations that read and update the world and may throw *)

Definition M (A : Type) : Type := World -> (Thrown + A) * World.

Definition ret {A} (a : A) : M A := fun w => (inr a, w).

Definition throw {A} (e : Thrown) : M A := fun w => (inl e, w).

Definition bind {A B} (m : M A) (k : A -> M B) : M B :=
  fun w =>
    match m w with
    | (inl e, w') => (inl e, w')
    | (inr a, w') => k a w'
    end.

(** [try { m } catch (error) { handler error }]: what [m] did to the world
    before it threw stays done. *)
Definition try_catch {A} (m : M A) (handler : Thrown -> M A) : M A :=
  fun w =>
    match m w with
    | (inl e, w') => handler e w'
    | (inr a, w') => (inr a, w')
    end.

Declare Scope js_scope.
Delimit Scope js_scope with js.
Notation "'let*' x ':=' m 'in' k" := (bind m (fun x => k))
  (at level 10, x name, m at level 100, k at level 200) : js_scope.
Notation "'run*' m 'in' k" := (bind m (fun _ => k))
  (at level 10, m at level 100, k at level 200) : js_scope.

#[local] Open Scope js_scope.

Definition Date_now : M Z := fun w => (inr (clock w), w).

(** ** The Redis client *)

(** A reply as the client hands it to JavaScript: [n] a number, a string, or
    [null]; an error reply rejects. *)
Definition redis_call (c : Cmd) : M Reply :=
  fun w =>
    let '(reply, db') := run (clock w) c (db w) in
    match reply with
    | RErr m => (inl (PlainError m), send (Single c) db' w)
    | _ => (inr reply, send (Single c) db' w)
    end.

(** [redis.zrem(key, member)] *)
Definition redis_zrem (key member : string) : M Reply :=
  redis_call (ZREM key member).

(** [redis.zscore(key, member)]: the score as a string, or [null]. *)
Definition redis_zscore (key member : string) : M (option string) :=
  let* reply := redis_call (ZSCORE key member) in
  ret (match reply with RBulk s => Some s | _ => None end).

(** How the connection and the server answer the first [exec()] of a
    MULTI block. *)
Inductive Answer :=
| Served                                        (* every command runs *)
| CommandError (index : nat) (message : string) (* one command answers with an error *)
| Aborted                                       (* EXEC answers nil: [exec()] resolves to [null] *)
| Rejected (message : string).                  (* [exec()] rejects with the client's [Error] *)

(** One element [[error, result]] of the array [exec()] resolves to. *)
Definition ExecEntry : Type := option string * option Reply.

Definition exec_entry (r : Reply) : ExecEntry :=
  match r with
  | RErr m => (Some m, None)
  | _ => (None, Some r)
  end.

(** The object [redis.multi()] returns. Commands are queued on it; the
    queue is never emptied. The first [exec()] closes the MULTI block, sends
    it and resolves to its results. A command queued afterwards is outside
    of the block. The object remembers what its promise resolved to. *)
Record Pipeline := {
  queue : list Cmd;                               (* inside MULTI ... EXEC *)
  queued_later : list Cmd;                        (* queued after the first [exec()] *)
  resolved : option (option (list ExecEntry));    (* the value of the promise, once there *)
  answer : Answer                                 (* how its first [exec()] is answered *)
}.

Definition redis_multi (how : Answer) : Pipeline :=
  {| queue := []; queued_later := []; resolved := None; answer := how |}.

Definition enqueue (c : Cmd) (p : Pipeline) : Pipeline :=
  match resolved p with
  | None =>
      {| queue := (queue p ++ [c])%list; queued_later := queued_later p;
         resolved := resolved p; answer := answer p |}
  | Some _ =>
      {| queue := queue p; queued_later := (queued_later p ++ [c])%list;
         resolved := resolved p; answer := answer p |}
  end.

Definition resolve (results : option (list ExecEntry)) (p : Pipeline) : Pipeline :=
  {| queue := queue p; queued_later := queued_later p;
     resolved := Some results; answer := answer p |}.

(** [await pipeline.exec()].

    The first call sends the MULTI block. It resolves to the array of the
    results, one [[error, result]] per command, or to [null]; or it rejects.

    A later call on the same object finds the promise resolved. The client
    then writes the whole queue to the connection once more, the MULTI block
    and after it what was queued later, and hands back the promise that has
    resolved already: the caller goes on at once. The server takes the
    commands of a connection in the order they were written, so whatever
    the service sends next finds them done; the world holds the store as
    the next command will find it. *)
Definition pipeline_exec (p : Pipeline) : M (option (list ExecEntry) * Pipeline) :=
  fun w =>
    match resolved p with
    | Some results =>
        let '(_, db1) := run_all (clock w) (queue p) (db w) in
        let w1 := send (Transaction (queue p)) db1 w in
        match queued_later p with
        | [] => (inr (results, p), w1)
        | cs =>
            let '(_, db2) := run_all (clock w) cs db1 in
            (inr (results, p), send (Pipelined cs) db2 w1)
        end
    | None =>
        match answer p with
        | Served =>
            let '(replies, db') := run_all (clock w) (queue p) (db w) in
            let results := Some (map exec_entry replies) in
            (inr (results, resolve results p), send (Transaction (queue p)) db' w)
        | CommandError index message =>
            let '(replies, db') :=
              run_all_but index message (clock w) (queue p) (db w) in
            let results := Some (map exec_entry replies) in
            (inr (results, resolve results p), send (Transaction (queue p)) db' w)
        | Aborted =>
            (inr (None, resolve None p), send (Transaction (queue p)) (db w) w)
        | Rejected message => (inl (PlainError message), w)
        end
    end.

(** ** The collaborators the service imports *)

(** The modules the service imports that are not among the sources (the
    environment, the Firebase admin client, the profile repository) and
    the sources of randomness, as parameters. *)
Record Env := {
  (** [env.NODE_ENV] *)
  NODE_ENV : string;
  (** [admin.auth().verifyIdToken(accessToken)], at a given time *)
  verifyIdToken : string -> Z -> Thrown + DecodedIdToken;
  (** [userRepository.upsertUser(args)] on the rows of the store *)
  upsertUser : UpsertArgs -> list User -> (Thrown + option User) * list User;
  (** [userRepository.getUserById(id)] *)
  getUserById : string -> list User -> Thrown + option User;
  (** the decimal form of the [n]-th number [Math.random()] yields *)
  Math_random : nat -> string;
  (** [argon2.hash(raw)], with the salt of the [n]-th draw *)
  argon2_hash : string -> nat -> string
}.

(* ===================================================================== *)
(** * cookie-management.ts *)
(* ===================================================================== *)

Section Service.

Variable E : Env.

Definition createSecureCookie (expiresIn : Z) (name value : string) : M unit :=
  let secure := if String.eqb (NODE_ENV E) "production" then "Secure;" else "" in
  let* now := Date_now in
  let cookie :=
    name +:+ "=" +:+ value +:+ "; HttpOnly; Path=/; SameSite=Lax; " +:+ secure
    +:+ " Expires=" +:+ Date_toUTCString (now + expiresIn) in
  fun w => (inr tt, append_header "Set-Cookie" cookie w).

Definition deleteCookie (name : string) : M unit :=
  let secure := if String.eqb (NODE_ENV E) "production" then "Secure;" else "" in
  let cookie :=
    name +:+ "=; HttpOnly; Path=/; SameSite=Lax; " +:+ secure
    +:+ " Expires=" +:+ Date_toUTCString 0 in
  fun w => (inr tt, append_header "Set-Cookie" cookie w).

(* ===================================================================== *)
(** * auth-service.ts *)
(* ===================================================================== *)

Definition SESSION_TOKEN_COOKIE_KEY := "x-session-token".
Definition USER_ID_COOKIE_KEY := "x-user-id".

Definition SESSION_TOKENS_PREFIX := "session-tokens:".
Definition getSessionTokensKey (userId : string) : string :=
  SESSION_TOKENS_PREFIX +:+ userId.

Definition SESSIONS_TOKEN_LIMIT : Z := 8.

(** [results?.[1]?.[1]] when it is a number. *)
Definition sessionTokensCount (results : option (list ExecEntry)) : option Z :=
  match results with
  | Some rs =>
      match rs !! 1%nat with
      | Some (_, Some (RInt n)) => Some n
      | _ => None
      end
  | None => None
  end.

(** The condition under which [addUserSession] gives up: [results] is not an
    array, one of its elements carries an error, or the count is not a
    number. *)
Definition batch_failed (results : option (list ExecEntry)) : bool :=
  match results with
  | None => true
  | Some rs =>
      existsb (fun result => bool_decide (result.1 ≠ None)) rs
      || bool_decide (sessionTokensCount results = None)
  end.

(** [addUserSession] from the point where the first [exec()] has resolved. *)
Definition addUserSession_after_exec (sessionKey : string)
    (pipeline : Pipeline) (results : option (list ExecEntry)) : M unit :=
  match batch_failed results, sessionTokensCount results with
  | false, Some count =>
      let pipeline :=
        if SESSIONS_TOKEN_LIMIT <? count then
          let tokensToRemove := count - 8 in
          enqueue (ZREMRANGEBYRANK sessionKey 0 (tokensToRemove - 1)) pipeline
        else pipeline in
      run* pipeline_exec pipeline in
      ret tt
  | _, _ =>
      throw (TRPCError INTERNAL_SERVER_ERROR "Failed to add user session")
  end.

(** [addUserSession] over a connection that answers the batch as [how]. *)
Definition addUserSession_on (how : Answer)
    (userId sessionToken : string) (expiresIn : Z) : M unit :=
  let sessionKey := getSessionTokensKey userId in
  let* now := Date_now in
  let score := now / 1000 + expiresIn in
  let pipeline := redis_multi how in
  let pipeline := enqueue (ZADD sessionKey (Number_toString score) sessionToken) pipeline in
  let pipeline := enqueue (ZCOUNT sessionKey "-inf" "+inf") pipeline in
  let pipeline := enqueue (EXPIRE sessionKey expiresIn) pipeline in
  let* r := pipeline_exec pipeline in
  addUserSession_after_exec sessionKey r.2 r.1.

(** [addUserSession] over a connection on which every command runs. *)
Definition addUserSession : string -> string -> Z -> M unit :=
  addUserSession_on Served.

Definition deleteSessionToken (userId sessionToken : string) : M unit :=
  let sessionKey := getSessionTokensKey userId in
  run* redis_zrem sessionKey sessionToken in
  ret tt.

Definition checkSessionTokenValidity (userId sessionToken : string) : M bool :=
  let sessionKey := getSessionTokensKey userId in
  let* score := redis_zscore sessionKey sessionToken in
  let* now := Date_now in
  let currentTimestamp := now / 1000 in
  if match score with
     | Some score => gt_number (parseInt score) currentTimestamp
     | None => false
     end
  then ret true
  else
    run* redis_zrem sessionKey sessionToken in
    ret false.

Definition generateSessionToken (userId : string) : M string :=
  let* now := Date_now in
  let* random := (fun w => (inr (Math_random E (rng w)), next_draw w)) in
  let rawToken := userId +:+ "-" +:+ Number_toString now +:+ "-" +:+ random in
  let* hashedToken := (fun w => (inr (argon2_hash E rawToken (rng w)), next_draw w)) in
  ret hashedToken.

(** The [try] block of [login]. *)
Definition login_try (accessToken : string) : M User :=
  let* verifiedToken := (fun w => (verifyIdToken E accessToken (clock w), w)) in
  match token_email verifiedToken with
  | None => throw (TRPCError UNAUTHORIZED "The access token is invalid")
  | Some email =>
      let name :=
        match token_name verifiedToken with
        | ClaimString s => Some s
        | _ => None
        end in
      let* userInfo :=
        (fun w =>
           let '(r, us) :=
             upsertUser E
               {| onCreate_email := email;
                  onCreate_imageUrl := token_picture verifiedToken;
                  onCreate_name := name;
                  onUpdate_imageUrl := token_picture verifiedToken;
                  onUpdate_name := name |}
               (users w) in
           (r, set_users us w)) in
      match userInfo with
      | None => throw (TRPCError INTERNAL_SERVER_ERROR "Failed to login")
      | Some userInfo =>
          let expiresIn := 60 * 60 * 24 * 5 in
          let* sessionToken := generateSessionToken (User_id userInfo) in
          run* addUserSession (User_id userInfo) sessionToken expiresIn in
          run* createSecureCookie expiresIn SESSION_TOKEN_COOKIE_KEY
                 (encodeURIComponent sessionToken) in
          run* createSecureCookie expiresIn USER_ID_COOKIE_KEY (User_id userInfo) in
          ret userInfo
      end
  end.

(** The [catch] block of [login]. *)
Definition login_catch (error : Thrown) : M User :=
  if instanceof_Error error then
    throw (TRPCError UNAUTHORIZED (Error_message error))
  else if instanceof_TRPCError error then throw error
  else throw (TRPCError INTERNAL_SERVER_ERROR "Failed to login").

Definition login (accessToken : string) : M User :=
  try_catch (login_try accessToken) login_catch.

Definition logout (userId sessionToken : string) : M unit :=
  run* deleteSessionToken userId sessionToken in
  run* deleteCookie SESSION_TOKEN_COOKIE_KEY in
  run* deleteCookie USER_ID_COOKIE_KEY in
  ret tt.

Inductive Validation :=
| Valid (userInfo : option User) (sessionToken : string)   (* success: true *)
| Invalid.                                                 (* success: false *)

Definition validateSessionToken (encodedSessionToken userId : string) : M Validation :=
  match decodeURIComponent encodedSessionToken with
  | None => throw (PlainError "URI malformed")
  | Some decodedSessionToken =>
      let* isSessionTokenValid := checkSessionTokenValidity userId decodedSessionToken in
      if negb isSessionTokenValid then ret Invalid
      else
        let* userInfo := (fun w => (getUserById E userId (users w), w)) in
        ret (Valid userInfo decodedSessionToken)
  end.

End Service.

(* ===================================================================== *)
(** * What the properties speak about *)
(* ===================================================================== *)

(** The outcome of a computation and the world it leaves, whether it
    returned or threw. *)
Definition outcome {A} (m : M A) (w : World) : Thrown + A := (m w).1.
Definition after {A} (m : M A) (w : World) : World := (m w).2.

(** The registry of a user: the members of the sorted set under the
    user's key, as the server sees it at the current time. *)
Definition registry (w : World) (userId : string) : zset :=
  live_members (clock w) (db w) (getSessionTokensKey userId).

Definition score_of (w : World) (userId token : string) : option Z :=
  zfind token (registry w userId).

(** The registry of [userId] right after [token] went in at the current
    time, before the cap is enforced. *)
Definition inserted (w : World) (userId token : string) (expiresIn : Z) : zset :=
  zsort ((token, clock w / 1000 + expiresIn) :: zremove token (registry w userId)).

(** A sorted set cut down to its 8 highest ranks. *)
Definition capped (ms : zset) : zset := drop (length ms - 8) ms.

(** The batch [addUserSession] queues before its first [exec()]. *)
Definition add_batch (w : World) (userId token : string) (expiresIn : Z) : list Cmd :=
  [ZADD (getSessionTokensKey userId)
        (Number_toString (clock w / 1000 + expiresIn)) token;
   ZCOUNT (getSessionTokensKey userId) "-inf" "+inf";
   EXPIRE (getSessionTokensKey userId) expiresIn].

(** The removal of the lowest ranks, which [addUserSession] queues when the
    count read by the batch is above the limit. *)
Definition eviction (userId : string) (count : Z) : list Sent :=
  if SESSIONS_TOKEN_LIMIT <? count
  then [Pipelined [ZREMRANGEBYRANK (getSessionTokensKey userId) 0 (count - 8 - 1)]]
  else [].

(** What [addUserSession] sends: the batch with its first [exec()]; with
    the second one the batch once more, and the removal if one was
    queued. *)
Definition add_trace (w : World) (userId token : string) (expiresIn : Z)
  : list Sent :=
  Transaction (add_batch w userId token expiresIn)
  :: Transaction (add_batch w userId token expiresIn)
  :: eviction userId (Z.of_nat (length (inserted w userId token expiresIn))).

(** The call surfaces an internal error. *)
Definition surfaces_internal {A} (o : Thrown + A) : Prop :=
  exists message, o = inl (TRPCError INTERNAL_SERVER_ERROR message).

(** The token [generateSessionToken] mints for [userId] in world [w]. *)
Definition minted (E : Env) (userId : string) (w : World) : string :=
  argon2_hash E
    (userId +:+ "-" +:+ Number_toString (clock w) +:+ "-" +:+ Math_random E (rng w))
    (S (rng w)).

(** The header [createSecureCookie] appends when the clock shows [now]. *)
Definition secure_cookie (E : Env) (now expiresIn : Z) (name value : string)
  : string * string :=
  ("Set-Cookie",
   name +:+ "=" +:+ value +:+ "; HttpOnly; Path=/; SameSite=Lax; "
   +:+ (if String.eqb (NODE_ENV E) "production" then "Secure;" else "")
   +:+ " Expires=" +:+ Date_toUTCString (now + expiresIn)).

(** After the read of the score, nothing more goes to the server. *)
Definition no_further_action (userId token : string) (w : World) : Prop :=
  sent (after (checkSessionTokenValidity userId token) w)
  = (sent w ++ [Single (ZSCORE (getSessionTokensKey userId) token)])%list.

(* ===================================================================== *)
(** * A test double for the collaborators *)
(* ===================================================================== *)

Module Demo.

(** One user per access token: the token is the local part of the address. *)
Definition demo_verify (accessToken : string) (now : Z) : Thrown + DecodedIdToken :=
  if String.eqb accessToken "" then inl (PlainError "Decoding Firebase ID token failed")
  else if String.eqb accessToken "anonymous" then
    inr {| token_email := None; token_name := ClaimUndefined; token_picture := None |}
  else
    inr {| token_email := Some (accessToken +:+ "@example.com");
           token_name := ClaimString accessToken;
           token_picture := None |}.

Fixpoint demo_upsert_rows (a : UpsertArgs) (n : nat) (us : list User) : User * list User :=
  match us with
  | [] =>
      let u := {| User_id := "u" +:+ Number_toString (Z.of_nat (S n));
                  User_email := onCreate_email a;
                  User_name := onCreate_name a;
                  User_imageUrl := onCreate_imageUrl a |} in
      (u, [u])
  | x :: r =>
      if String.eqb (User_email x) (onCreate_email a) then
        let u := {| User_id := User_id x; User_email := User_email x;
                    User_name := onUpdate_name a;
                    User_imageUrl := onUpdate_imageUrl a |} in
        (u, u :: r)
      else
        let '(u, r') := demo_upsert_rows a (S n) r in (u, x :: r')
  end.

Definition demo_upsert (a : UpsertArgs) (us : list User)
  : (Thrown + option User) * list User :=
  let '(u, us') := demo_upsert_rows a 0 us in (inr (Some u), us').

Definition demo_get (userId : string) (us : list User) : Thrown + option User :=
  inr (List.find (fun u => String.eqb (User_id u) userId) us).

(** Salts that decrease with the draw: a later token sorts before an
    earlier one. *)
Definition demo_hash (raw : string) (n : nat) : string :=
  "$argon2id$v=19$m=65536,t=3,p=4$" +:+ String (ascii_of_nat (122 - n)) "".

Definition env : Env := {|
  NODE_ENV := "production";
  verifyIdToken := demo_verify;
  upsertUser := demo_upsert;
  getUserById := demo_get;
  Math_random := fun n => "0." +:+ Number_toString (Z.of_nat (S n));
  argon2_hash := demo_hash
|}.

(** The same, with a profile store that returns no record. *)
Definition env_no_record : Env := {|
  NODE_ENV := "production";
  verifyIdToken := demo_verify;
  upsertUser := fun _ us => (inr None, us);
  getUserById := demo_get;
  Math_random := fun n => "0." +:+ Number_toString (Z.of_nat (S n));
  argon2_hash := demo_hash
|}.

Definition world0 : World := {|
  clock := 0; db := ∅; sent := []; users := []; rng := 0; headers := []
|}.

(** [n] logins of [accessToken], [step] ms apart, the first one at the
    current time. *)
Fixpoint logins (accessToken : string) (step : Z) (n : nat) (w : World) : World :=
  match n with
  | O => w
  | S n =>
      let w := after (login env accessToken) w in
      logins accessToken step n (set_clock (clock w + step) w)
  end.

(** Whether each of these [n] logins returns. *)
Fixpoint all_return (accessToken : string) (step : Z) (n : nat) (w : World) : bool :=
  match n with
  | O => true
  | S n =>
      let '(r, w) := login env accessToken w in
      match r with
      | inr _ => all_return accessToken step n (set_clock (clock w + step) w)
      | inl _ => false
      end
  end.

(** The [k]-th token minted from [world0]; each login takes two draws. *)
Definition token (k : nat) : string := demo_hash "" (2 * k - 1).

(** Alice, logged in once at time 0. *)
Definition world1 : World := after (login env "alice") world0.

End Demo.

(* ===================================================================== *)
(** * Further notions *)
(* ===================================================================== *)

(** No member is listed twice in a sorted set. *)
Definition distinct_members (ms : zset) : Prop := NoDup ms.*1.

(* ===================================================================== *)
(** * The server-side tRPC client: the context of a call *)
(* ===================================================================== *)

(** The [Headers] of the Fetch standard, as the list of its (name, value)
    pairs. Names match without regard to the case of ASCII letters. *)
Definition ascii_lower (c : ascii) : ascii :=
  let n := N_of_ascii c in
  if ((65 <=? n) && (n <=? 90))%N then ascii_of_N (n + 32) else c.

Fixpoint lower (s : string) : string :=
  match s with
  | EmptyString => EmptyString
  | String c r => String (ascii_lower c) (lower r)
  end.

Definition same_name (a b : string) : bool := String.eqb (lower a) (lower b).

(** [headers.set(name, value)]: the first header of that name gets the
    value and the others of that name go; without one, the header is
    appended. *)
Fixpoint Headers_set (name value : string) (h : list (string * string))
  : list (string * string) :=
  match h with
  | [] => [(name, value)]
  | (n, v) :: r =>
      if same_name n name
      then (n, value) :: List.filter (fun x => negb (same_name x.1 name)) r
      else (n, v) :: Headers_set name value r
  end.

(** [headers.get(name)]: the values of the headers of that name, joined
    with a comma and a space, or [null]. *)
Definition Headers_get (name : string) (h : list (string * string)) : option string :=
  match List.filter (fun x => same_name x.1 name) h with
  | [] => None
  | (_, v) :: r => Some (fold_left (fun acc x => acc +:+ ", " +:+ x.2) r v)
  end.

(** [createContext] of the server-side client, from the headers of the
    incoming request ([headers()]): the headers of the context it returns.
    [new Headers(...)] copies, so the request's own headers stay as they
    are. *)
Definition createContext (request : list (string * string)) : list (string * string) :=
  let heads := request in
  let heads := Headers_set "x-trpc-source" "rsc" heads in
  heads.

(* ===================================================================== *)
(** * Facts about the runtime *)
(* ===================================================================== *)

Section RuntimeFacts.

Lemma leading_digits_string_of_uint (d : uint) :
  leading_digits (NilEmpty.string_of_uint d) = d.
Proof. induction d; simpl; congruence. Qed.

Lemma parseInt_digits (d : uint) :
  d <> Nil -> parseInt (NilEmpty.string_of_uint d) = Some (Z.of_uint d).
Proof.
  intros Hd. unfold parseInt.
  assert (Hsign : read_sign (skip_white_space (NilEmpty.string_of_uint d))
                  = (false, NilEmpty.string_of_uint d))
    by (destruct d; reflexivity).
  rewrite Hsign. simpl. rewrite leading_digits_string_of_uint.
  destruct d; congruence.
Qed.

Lemma Z_of_uint_to_uint (p : positive) : Z.of_uint (Pos.to_uint p) = Z.pos p.
Proof. unfold Z.of_uint. now rewrite DecimalPos.Unsigned.of_to. Qed.

Lemma Number_toString_pos (p : positive) :
  Number_toString (Z.pos p) = NilEmpty.string_of_uint (Pos.to_uint p).
Proof.
  unfold Number_toString. simpl.
  pose proof (DecimalPos.Unsigned.to_uint_nonnil p) as Hn.
  destruct (Pos.to_uint p); first [reflexivity | congruence].
Qed.

(** Reading back a number that was written in decimal gives the number. *)
Lemma parseInt_Number_toString (n : Z) : parseInt (Number_toString n) = Some n.
Proof.
  destruct n as [|p|p].
  - reflexivity.
  - rewrite Number_toString_pos, parseInt_digits
      by apply DecimalPos.Unsigned.to_uint_nonnil.
    now rewrite Z_of_uint_to_uint.
  - pose proof (DecimalPos.Unsigned.to_uint_nonnil p) as Hn.
    pose proof (Number_toString_pos p) as Hs.
    assert (Hneg : Number_toString (Z.neg p)
                   = String "-" (NilEmpty.string_of_uint (Pos.to_uint p))).
    { unfold Number_toString in *. simpl in *. now rewrite Hs. }
    rewrite Hneg. unfold parseInt. simpl.
    rewrite leading_digits_string_of_uint.
    destruct (Pos.to_uint p) eqn:Hp; try congruence;
      rewrite <- Hp, Z_of_uint_to_uint; reflexivity.
Qed.

Lemma parse_score_Number_toString (n : Z) :
  parse_score (Number_toString n) = Some n.
Proof.
  unfold parse_score, Number_toString.
  rewrite NilZero.isi.
  - simpl. now rewrite DecimalZ.of_to.
  - destruct n; simpl; try discriminate.
    intros [= H]. now apply (DecimalPos.Unsigned.to_uint_nonnil p).
  - destruct n; simpl; try discriminate.
    intros [= H]. now apply (DecimalPos.Unsigned.to_uint_nonnil p).
Qed.

Lemma parseInt_format_score (n : Z) : parseInt (format_score n) = Some n.
Proof. apply parseInt_Number_toString. Qed.

Example parseInt_examples :
  parseInt "432000" = Some 432000 /\ parseInt "  -12px" = Some (-12)
  /\ parseInt "" = None /\ parseInt "abc" = None.
Proof. repeat split; reflexivity. Qed.

Example Date_toUTCString_examples :
  Date_toUTCString 0 = "Thu, 01 Jan 1970 00:00:00 GMT"
  /\ Date_toUTCString 432000 = "Thu, 01 Jan 1970 00:07:12 GMT"
  /\ Date_toUTCString 432000000 = "Tue, 06 Jan 1970 00:00:00 GMT"
  /\ Date_toUTCString 951782400000 = "Tue, 29 Feb 2000 00:00:00 GMT"
  /\ Date_toUTCString 1700000000000 = "Tue, 14 Nov 2023 22:13:20 GMT"
  /\ Date_toUTCString (-1) = "Wed, 31 Dec 1969 23:59:59 GMT".
Proof. repeat split; vm_compute; reflexivity. Qed.

(** ** Percent-encoding *)

Lemma string_app_cons (c : ascii) (s t : string) :
  String c s +:+ t = String c (s +:+ t).
Proof. reflexivity. Qed.

Lemma unreserved_not_percent (c : ascii) :
  uri_unreserved c = true -> Ascii.eqb c "%" = false.
Proof.
  destruct c as [[] [] [] [] [] [] [] []]; vm_compute; congruence.
Qed.

Lemma hex_digits_back (c : ascii) :
  hex_value (hex_digit (N_of_ascii c / 16)) = Some (N_of_ascii c / 16)%N
  /\ hex_value (hex_digit (N_of_ascii c mod 16)) = Some (N_of_ascii c mod 16)%N
  /\ ascii_of_N (16 * (N_of_ascii c / 16) + N_of_ascii c mod 16) = c.
Proof.
  destruct c as [[] [] [] [] [] [] [] []]; vm_compute; auto.
Qed.

(** The units of an encoded string: one per byte of the original, escaped
    exactly when the byte is not unreserved. *)
Lemma uri_units_encode (s : string) :
  uri_units (encodeURIComponent s)
  = Some (map (fun c => (negb (uri_unreserved c), c)) (list_ascii_of_string s)).
Proof.
  induction s as [|c s IH]; [reflexivity|].
  cbn [encodeURIComponent list_ascii_of_string map].
  destruct (uri_unreserved c) eqn:Hc.
  - rewrite string_app_cons. cbn [uri_units].
    rewrite (unreserved_not_percent c Hc).
    change ("" +:+ encodeURIComponent s) with (encodeURIComponent s).
    now rewrite IH.
  - unfold percent_escape. rewrite !string_app_cons.
    change ("" +:+ encodeURIComponent s) with (encodeURIComponent s).
    cbn [uri_units]. rewrite Ascii.eqb_refl.
    destruct (hex_digits_back c) as (-> & -> & ->).
    now rewrite IH.
Qed.

Lemma utf8_escapes_ok_ascii (f : ascii -> bool) (l : list ascii) :
  forallb (fun c => (N_of_ascii c <? 128)%N) l = true ->
  utf8_escapes_ok [] (map (fun c => (f c, c)) l) = true.
Proof.
  induction l as [|c l IH]; [reflexivity|].
  cbn [forallb map utf8_escapes_ok]. intros [Hc Hl]%andb_prop.
  rewrite Hc, orb_true_r. auto.
Qed.

Example URIComponent_examples :
  encodeURIComponent "$argon2id$v=19$m=65536,t=3,p=4$c2FsdA+/$aGFzaA=="
  = "%24argon2id%24v%3D19%24m%3D65536%2Ct%3D3%2Cp%3D4%24c2FsdA%2B%2F%24aGFzaA%3D%3D"
  /\ decodeURIComponent "a%20b" = Some "a b"
  /\ decodeURIComponent "%e2%82%ac" = decodeURIComponent "%E2%82%AC"
  /\ decodeURIComponent "%E2%82" = None
  /\ decodeURIComponent "%C0%80" = None
  /\ decodeURIComponent "100%" = None.
Proof. repeat split; vm_compute; reflexivity. Qed.

(** An ASCII string survives the trip through the cookie. *)
Lemma decode_encode_ascii (s : string) :
  is_ascii s = true -> decodeURIComponent (encodeURIComponent s) = Some s.
Proof.
  intros Hs. unfold decodeURIComponent.
  rewrite uri_units_encode, utf8_escapes_ok_ascii by exact Hs.
  rewrite map_map. cbn [snd].
  now rewrite map_id, string_of_list_ascii_of_string.
Qed.

End RuntimeFacts.

(* ===================================================================== *)
(** * Facts about sorted sets *)
(* ===================================================================== *)

Section SortedSetFacts.

Implicit Types (e : string * Z) (l ms : zset) (member : string).

Lemma length_zinsert e l : length (zinsert e l) = S (length l).
Proof.
  induction l as [|x l IH]; [reflexivity|].
  simpl. destruct (entry_le e x); simpl; congruence.
Qed.

Lemma length_zsort l : length (zsort l) = length l.
Proof.
  induction l as [|x l IH]; [reflexivity|].
  simpl. rewrite length_zinsert. congruence.
Qed.

Lemma zinsert_not_nil e l : zinsert e l <> [].
Proof. destruct l as [|x l]; simpl; [|destruct (entry_le e x)]; discriminate. Qed.

Lemma zfind_zinsert_ne e l member :
  e.1 <> member -> zfind member (zinsert e l) = zfind member l.
Proof.
  intros Hne. induction l as [|x l IH]; simpl.
  - now rewrite decide_False.
  - destruct (entry_le e x); simpl.
    + now rewrite (decide_False (P := e.1 = member)).
    + now rewrite IH.
Qed.

Lemma zfind_zinsert_new e l :
  zfind e.1 l = None -> zfind e.1 (zinsert e l) = Some e.2.
Proof.
  induction l as [|x l IH]; simpl.
  - now rewrite decide_True.
  - destruct (decide (x.1 = e.1)) as [|Hx]; [discriminate|]. intros Hl.
    destruct (entry_le e x); simpl.
    + now rewrite decide_True.
    + rewrite decide_False by done. auto.
Qed.

Lemma zfind_zsort_None member l :
  zfind member l = None -> zfind member (zsort l) = None.
Proof.
  induction l as [|x l IH]; [done|]. simpl.
  destruct (decide (x.1 = member)); [discriminate|]. intros Hl.
  rewrite zfind_zinsert_ne by done. auto.
Qed.

Lemma zfind_zremove member l : zfind member (zremove member l) = None.
Proof.
  unfold zremove. induction l as [|x l IH]; [done|].
  rewrite filter_cons. destruct (decide (x.1 <> member)) as [Hx|Hx]; [|done].
  simpl. now rewrite decide_False.
Qed.

(** A member that was added is found with the score it was given. *)
Lemma zfind_added member (s : Z) l :
  zfind member (zsort ((member, s) :: zremove member l)) = Some s.
Proof.
  simpl. apply (zfind_zinsert_new (member, s)).
  apply zfind_zsort_None, zfind_zremove.
Qed.

Lemma zfind_None_zremove member l : zfind member l = None -> zremove member l = l.
Proof.
  unfold zremove. induction l as [|x l IH]; [done|]. simpl.
  destruct (decide (x.1 = member)); [discriminate|]. intros Hl.
  rewrite filter_cons, decide_True by done. now rewrite IH.
Qed.

Lemma zremove_zinsert_same e l : zremove e.1 (zinsert e l) = zremove e.1 l.
Proof.
  unfold zremove. induction l as [|x l IH]; simpl.
  - now rewrite filter_cons, decide_False by (intros H; now apply H).
  - destruct (entry_le e x).
    + now rewrite filter_cons, decide_False by (intros H; now apply H).
    + rewrite !filter_cons, IH. reflexivity.
Qed.

(** ** The order of a sorted set *)

Lemma entry_le_total a b : entry_le a b = false -> entry_le b a = true.
Proof.
  unfold entry_le. intros H.
  apply orb_false_elim in H as [Hlt H].
  apply Z.ltb_ge in Hlt.
  destruct (Z.eqb_spec a.2 b.2) as [Heq|Hne].
  - simpl in H. rewrite Heq, Z.eqb_refl, Z.ltb_irrefl. simpl.
    destruct (String.leb_total a.1 b.1) as [Hab|Hba]; congruence.
  - assert ((b.2 <? a.2) = true) as -> by (apply Z.ltb_lt; lia). reflexivity.
Qed.

Lemma entry_le_score a b : entry_le a b = true -> a.2 <= b.2.
Proof.
  unfold entry_le. intros [H|[H _]%andb_prop]%orb_prop.
  - apply Z.ltb_lt in H. lia.
  - apply Z.eqb_eq in H. lia.
Qed.

Lemma ranked_zinsert e l : ranked l -> ranked (zinsert e l).
Proof.
  unfold ranked. induction l as [|x l IH]; intros Hl; simpl.
  - repeat constructor.
  - destruct (entry_le e x) eqn:Hex.
    + constructor; [exact Hl|]. now constructor.
    + apply Sorted_inv in Hl as [Hl Hhd]. constructor; [auto|].
      destruct l as [|y l]; simpl.
      * constructor. now apply entry_le_total.
      * destruct (entry_le e y); constructor.
        -- now apply entry_le_total.
        -- now apply HdRel_inv in Hhd.
Qed.

Lemma ranked_zsort l : ranked (zsort l).
Proof.
  induction l as [|x l IH]; simpl; [constructor|]. now apply ranked_zinsert.
Qed.

(** Sorting what is in order changes nothing. *)
Lemma zsort_ranked l : ranked l -> zsort l = l.
Proof.
  unfold ranked. induction l as [|x l IH]; [done|]. intros Hl.
  apply Sorted_inv in Hl as [Hl Hhd]. simpl. rewrite IH by done.
  destruct l as [|y l]; [done|]. simpl.
  apply HdRel_inv in Hhd. now rewrite Hhd.
Qed.

Lemma zsort_zsort l : zsort (zsort l) = zsort l.
Proof. apply zsort_ranked, ranked_zsort. Qed.

(** Adding a member again with the same score changes nothing. *)
Lemma zsort_added_again member (s : Z) l :
  let ins := zsort ((member, s) :: zremove member l) in
  zsort ((member, s) :: zremove member ins) = ins.
Proof.
  cbn [zsort foldr]. fold (zsort (zremove member l)).
  rewrite (zremove_zinsert_same (member, s)). cbn [fst].
  rewrite (zfind_None_zremove member (zsort (zremove member l)))
    by apply zfind_zsort_None, zfind_zremove.
  cbn [zsort foldr]. fold (zsort (zsort (zremove member l))).
  now rewrite zsort_zsort.
Qed.

(** In a sorted set, a member of lower rank never has a higher score. *)
Lemma ranked_take_drop (n : nat) l a b :
  ranked l -> a ∈ take n l -> b ∈ drop n l -> a.2 <= b.2.
Proof.
  intros Hl.
  assert (Hs : StronglySorted (fun a b => a.2 <= b.2) l).
  { apply Sorted_StronglySorted; [intros x y z ??; lia|].
    induction Hl as [|x l' Hl' IH Hhd]; constructor; [exact IH|].
    destruct Hhd; constructor. now apply entry_le_score. }
  clear Hl. revert n. induction Hs as [|x l' Hs IH Hall]; intros n Ha Hb.
  - rewrite take_nil in Ha. inversion Ha.
  - destruct n as [|n]; [inversion Ha|]. simpl in Ha, Hb.
    apply elem_of_cons in Ha as [->|Ha]; [|eauto].
    rewrite Forall_forall in Hall. apply Hall.
    now apply (subseteq_drop n l').
Qed.

End SortedSetFacts.

(* ===================================================================== *)
(** * Facts about the commands *)
(* ===================================================================== *)

Section CommandFacts.

Implicit Types (db : gmap string RedisKey) (key : string) (ms : zset).

Lemma store_not_nil key ms ttl db :
  ms <> [] -> store key ms ttl db = <[key := {| members := ms; expire_at := ttl |}]> db.
Proof. destruct ms; [congruence | reflexivity]. Qed.

Lemma live_insert now db key k :
  expired now k = false -> live now (<[key := k]> db) key = Some k.
Proof. intros Hk. unfold live. now rewrite lookup_insert_eq, Hk. Qed.

Lemma live_members_insert now db key k :
  expired now k = false -> live_members now (<[key := k]> db) key = members k.
Proof. intros Hk. unfold live_members. now rewrite live_insert. Qed.

Lemma live_delete now db key : live now (delete key db) key = None.
Proof. unfold live. now rewrite lookup_delete_eq. Qed.

Lemma live_expire_not_expired now db key ms :
  expired now {| members := ms; expire_at := live_expire now db key |} = false.
Proof.
  unfold live_expire, live, expired. simpl.
  destruct (db !! key) as [k|]; [|reflexivity]. simpl.
  destruct (expire_at k) as [t|] eqn:Ht; simpl.
  - destruct (t <? now) eqn:Hlt; simpl; [reflexivity|]. now rewrite Ht, Hlt.
  - now rewrite Ht.
Qed.

Lemma filter_all_scores ms :
  filter (fun e : string * Z => in_bounds NegInf PosInf e.2 = true) ms = ms.
Proof.
  induction ms as [|x ms IH]; [done|].
  rewrite filter_cons, decide_True by done. now rewrite IH.
Qed.

Example sorted_set_commands :
  let '(replies, db) :=
    run_all 0 [ZADD "k" "432000" "b"; ZADD "k" "432000" "a"; ZADD "k" "431000" "c";
               ZADD "k" "432001" "a"; ZCOUNT "k" "-inf" "+inf"; EXPIRE "k" 60;
               ZREMRANGEBYRANK "k" 0 0; ZSCORE "k" "a"; ZSCORE "k" "c";
               ZREM "k" "a"; ZREM "k" "a"; ZADD "k" "soon" "d"] ∅ in
  replies = [RInt 1; RInt 1; RInt 1; RInt 0; RInt 3; RInt 1; RInt 1;
             RBulk "432001"; RNil; RInt 1; RInt 0;
             RErr "ERR value is not a valid float"]
  /\ db !! "k" = Some {| members := [("b", 432000)]; expire_at := Some 60000 |}.
Proof. vm_compute. split; reflexivity. Qed.

(** The three commands of the batch, run in a row. *)
Lemma run_add_batch now db key token (score expiresIn : Z) :
  let ins := zsort ((token, score) :: zremove token (live_members now db key)) in
  run_all now [ZADD key (Number_toString score) token;
               ZCOUNT key "-inf" "+inf";
               EXPIRE key expiresIn] db
  = ([RInt (if is_Some_dec (zfind token (live_members now db key)) then 0 else 1);
      RInt (Z.of_nat (length ins));
      RInt 1],
     if expiresIn <=? 0 then delete key db
     else <[key := {| members := ins; expire_at := Some (now + expiresIn * 1000) |}]> db).
Proof.
  intros ins. cbn [run_all run].
  rewrite parse_score_Number_toString. fold ins.
  rewrite store_not_nil by apply zinsert_not_nil.
  change (parse_bound "-inf") with (Some NegInf).
  change (parse_bound "+inf") with (Some PosInf).
  rewrite live_members_insert, !live_insert by apply live_expire_not_expired.
  cbn [members]. rewrite filter_all_scores.
  destruct (expiresIn <=? 0); cbn [members].
  - now rewrite delete_insert_eq.
  - now rewrite insert_insert_eq.
Qed.

(** Sent a second time at the same instant, the batch leaves the store as
    the first time. *)
Lemma add_batch_idempotent now db key token (score expiresIn : Z) :
  let batch := [ZADD key (Number_toString score) token;
                ZCOUNT key "-inf" "+inf";
                EXPIRE key expiresIn] in
  (run_all now batch (run_all now batch db).2).2 = (run_all now batch db).2.
Proof.
  intros batch. subst batch. rewrite !run_add_batch. cbn [snd].
  destruct (expiresIn <=? 0) eqn:Httl.
  - now rewrite delete_delete_eq.
  - rewrite live_members_insert
      by (unfold expired; cbn [expire_at]; apply Z.ltb_ge; apply Z.leb_gt in Httl; lia).
    cbn [members]. rewrite zsort_added_again. now rewrite insert_insert_eq.
Qed.

Lemma run_all_but_error index message now cs db :
  (index < length cs)%nat ->
  RErr message ∈ (run_all_but index message now cs db).1.
Proof.
  revert index db. induction cs as [|c r IH]; intros index db Hindex;
    cbn [length] in Hindex; [lia|].
  destruct index as [|index]; cbn [run_all_but].
  - destruct (run_all now r db) as [replies db1]. cbn [fst]. constructor.
  - destruct (run now c db) as [reply db1].
    specialize (IH index db1 ltac:(lia)).
    destruct (run_all_but index message now r db1) as [replies db2].
    cbn [fst] in *. now constructor.
Qed.

Lemma remove_lowest_ranks (n : nat) ms :
  (0 < n < length ms)%nat ->
  remove_rank_range 0 (Z.of_nat n - 1) ms = (drop n ms, Z.of_nat n).
Proof.
  intros Hn. unfold remove_rank_range. cbv zeta.
  assert (H1 : (Z.of_nat n - 1 <? 0) = false) by (apply Z.ltb_ge; lia).
  assert (H2 : (Z.of_nat (length ms) <=? 0) = false) by (apply Z.leb_gt; lia).
  assert (H3 : (Z.of_nat (length ms) <=? Z.of_nat n - 1) = false)
    by (apply Z.leb_gt; lia).
  repeat first [ progress (change (0 <? 0) with false; cbv iota)
               | rewrite H1 | rewrite H2 | rewrite H3 ].
  cbn [orb Z.to_nat take app].
  replace (Z.of_nat n - 1 + 1) with (Z.of_nat n) by lia.
  rewrite Nat2Z.id. f_equal. lia.
Qed.

(** Removing the [n] lowest ranks of a live sorted set that has more than
    [n] members. *)
Lemma run_evict now db key ms ttl (n : nat) :
  db !! key = Some {| members := ms; expire_at := ttl |} ->
  expired now {| members := ms; expire_at := ttl |} = false ->
  ranked ms -> (0 < n < length ms)%nat ->
  run now (ZREMRANGEBYRANK key 0 (Z.of_nat n - 1)) db
  = (RInt (Z.of_nat n), <[key := {| members := drop n ms; expire_at := ttl |}]> db).
Proof.
  intros Hk Hlive Hms Hn. cbn [run]. unfold live. rewrite Hk, Hlive.
  cbn [members expire_at]. rewrite zsort_ranked by done.
  rewrite remove_lowest_ranks by done.
  assert ((Z.of_nat n =? 0) = false) as -> by (apply Z.eqb_neq; lia).
  rewrite store_not_nil; [reflexivity|].
  intros Hnil. apply (f_equal length) in Hnil. rewrite length_drop in Hnil.
  simpl in Hnil. lia.
Qed.

End CommandFacts.

(* ===================================================================== *)
(** * The session registry *)
(* ===================================================================== *)

Section RegistryFacts.

Implicit Types (w : World) (userId token : string).

Lemma length_inserted w userId token expiresIn :
  length (inserted w userId token expiresIn)
  = S (length (zremove token (registry w userId))).
Proof. unfold inserted. now rewrite length_zsort. Qed.

Lemma ranked_inserted w userId token expiresIn :
  ranked (inserted w userId token expiresIn).
Proof. apply ranked_zsort. Qed.

(** [addUserSession] spelled out: it returns, and the world it leaves. *)
Lemma addUserSession_run userId token expiresIn w :
  let key := getSessionTokensKey userId in
  let ins := inserted w userId token expiresIn in
  addUserSession userId token expiresIn w
  = (inr tt,
     {| clock := clock w;
        db := if expiresIn <=? 0 then delete key (db w)
              else <[key := {| members := capped ins;
                               expire_at := Some (clock w + expiresIn * 1000) |}]>
                     (db w);
        sent := (sent w ++ add_trace w userId token expiresIn)%list;
        users := users w; rng := rng w; headers := headers w |}).
Proof.
  intros key ins.
  pose proof (run_add_batch (clock w) (db w) key token
                (clock w / 1000 + expiresIn) expiresIn) as Hfirst.
  pose proof (add_batch_idempotent (clock w) (db w) key token
                (clock w / 1000 + expiresIn) expiresIn) as Hagain.
  cbv zeta in Hfirst, Hagain. rewrite Hfirst in Hagain. cbn [snd] in Hagain.
  change (zsort ((token, clock w `div` 1000 + expiresIn)
                 :: zremove token (live_members (clock w) (db w) key)))
    with ins in Hfirst, Hagain.
  unfold addUserSession, addUserSession_on, bind, Date_now.
  unfold pipeline_exec at 1.
  cbn [redis_multi enqueue resolve resolved queue queued_later answer app fst snd].
  fold key. rewrite Hfirst.
  cbn [fst snd map exec_entry].
  unfold addUserSession_after_exec.
  cbn [batch_failed sessionTokensCount existsb lookup list_lookup fst snd orb].
  rewrite !bool_decide_eq_false_2 by (intros H; now apply H).
  cbn [orb]. rewrite bool_decide_eq_false_2 by discriminate.
  unfold add_trace, eviction, SESSIONS_TOKEN_LIMIT. fold ins.
  unfold bind, pipeline_exec, ret.
  destruct (Z.ltb_spec 8 (Z.of_nat (length ins))) as [Hcap|Hcap];
    cbn [enqueue resolve resolved queue queued_later answer app];
    unfold send; cbn [clock db sent users rng headers];
    destruct (run_all (clock w) _ (if expiresIn <=? 0 then _ else _))
      as [again db1] eqn:Hrun;
    cbn [snd] in Hagain; subst db1.
  - cbn [run_all].
    replace (Z.of_nat (length ins) - 8 - 1)
      with (Z.of_nat (length ins - 8) - 1) by lia.
    destruct (expiresIn <=? 0) eqn:Httl.
    + cbn [run]. rewrite live_delete. now rewrite <- !app_assoc.
    + erewrite run_evict;
        [ | apply lookup_insert_eq
          | unfold expired; cbn [expire_at]; apply Z.ltb_ge; apply Z.leb_gt in Httl; lia
          | apply ranked_inserted
          | lia ].
      rewrite insert_insert_eq, <- !app_assoc. reflexivity.
  - unfold capped. replace (length ins - 8)%nat with 0%nat by lia.
    rewrite <- !app_assoc. reflexivity.
Qed.

Lemma registry_after_add userId token expiresIn w :
  registry (after (addUserSession userId token expiresIn) w) userId
  = if expiresIn <=? 0 then [] else capped (inserted w userId token expiresIn).
Proof.
  unfold after. rewrite addUserSession_run. unfold registry. cbn [snd clock db].
  destruct (expiresIn <=? 0) eqn:Httl.
  - unfold live_members. now rewrite live_delete.
  - rewrite live_members_insert; [reflexivity|].
    unfold expired. cbn [expire_at]. apply Z.ltb_ge. apply Z.leb_gt in Httl. lia.
Qed.

Lemma length_capped ms : length (capped ms) = Nat.min (length ms) 8.
Proof. unfold capped. rewrite length_drop. lia. Qed.

(** [checkSessionTokenValidity] spelled out. *)
Lemma checkSessionTokenValidity_run userId token w :
  let key := getSessionTokensKey userId in
  let asked := send (Single (ZSCORE key token)) (db w) w in
  checkSessionTokenValidity userId token w
  = match score_of w userId token with
    | Some score =>
        if clock w / 1000 <? score then (inr true, asked)
        else (inr false,
              send (Single (ZREM key token))
                   (store key (zremove token (registry w userId))
                          (live_expire (clock w) (db w) key) (db w))
                   asked)
    | None => (inr false, send (Single (ZREM key token)) (db w) asked)
    end.
Proof.
  intros key asked.
  unfold checkSessionTokenValidity, redis_zscore, redis_zrem, redis_call, bind,
    Date_now, ret, score_of, registry.
  fold key. cbn [run].
  unfold live_members, live_expire.
  destruct (live (clock w) (db w) key) as [k|] eqn:Hlive; cbn [from_option].
  - destruct (zfind token (members k)) as [score|] eqn:Hfind.
    + cbn [clock send]. rewrite parseInt_format_score. cbn [gt_number].
      destruct (clock w / 1000 <? score); [reflexivity|].
      cbn [run db clock send]. rewrite Hlive, Hfind. reflexivity.
    + cbn [run db clock send]. rewrite Hlive, Hfind. reflexivity.
  - cbn [zfind run db clock send]. rewrite Hlive. reflexivity.
Qed.

Lemma live_members_store now (db : gmap string RedisKey) key ms :
  live_members now (store key ms (live_expire now db key) db) key = ms.
Proof.
  destruct ms as [|e ms]; cbn [store].
  - unfold live_members. now rewrite live_delete.
  - now rewrite live_members_insert by apply live_expire_not_expired.
Qed.

(** Once its time to live has run out, a key stays gone. *)
Lemma live_None_later now later (db : gmap string RedisKey) key :
  now <= later -> live now db key = None -> live later db key = None.
Proof.
  unfold live, expired. intros Hle.
  destruct (db !! key) as [k|]; [|done].
  destruct (expire_at k) as [t|]; [|done].
  destruct (Z.ltb_spec t now); [|done]. intros _.
  destruct (Z.ltb_spec t later); [done|lia].
Qed.

Lemma live_Some_later now later (db : gmap string RedisKey) key k k' :
  live now db key = Some k -> live later db key = Some k' -> k' = k.
Proof.
  unfold live. destruct (db !! key) as [k0|]; [|done].
  destruct (expired now k0), (expired later k0); congruence.
Qed.

(** What [deleteSessionToken] removes is not found again, at any later
    time. *)
Lemma zrem_gone now later (db : gmap string RedisKey) key token :
  now <= later ->
  zfind token (live_members later (run now (ZREM key token) db).2 key) = None.
Proof.
  intros Hle. cbn [run]. unfold live_members.
  destruct (live now db key) as [k|] eqn:Hlive; cbn [snd].
  - destruct (zfind token (members k)) as [s|] eqn:Hfind; cbn [snd].
    + destruct (zremove token (members k)) as [|e ms] eqn:Hrem; cbn [store].
      * now rewrite live_delete.
      * unfold live. rewrite lookup_insert_eq.
        destruct (expired later _); cbn [from_option members]; [done|].
        rewrite <- Hrem. apply zfind_zremove.
    + destruct (live later db key) as [k'|] eqn:Hlater; [|done].
      now rewrite (live_Some_later _ _ _ _ _ _ Hlive Hlater).
  - now rewrite (live_None_later _ _ _ _ Hle Hlive).
Qed.

End RegistryFacts.

(* ===================================================================== *)
(** * The session service *)
(* ===================================================================== *)

Section ServiceFacts.

Variable E : Env.

Implicit Types (w : World) (userId token : string).

Lemma logout_run userId token w :
  logout E userId token w
  = (inr tt,
     after (deleteCookie E USER_ID_COOKIE_KEY)
       (after (deleteCookie E SESSION_TOKEN_COOKIE_KEY)
          (send (Single (ZREM (getSessionTokensKey userId) token))
                (run (clock w) (ZREM (getSessionTokensKey userId) token) (db w)).2
                w))).
Proof.
  unfold logout, deleteSessionToken, redis_zrem, redis_call, bind, ret, after.
  destruct (run (clock w) (ZREM (getSessionTokensKey userId) token) (db w))
    as [reply db'] eqn:Hrun.
  assert (Hreply : reply = RInt 0 \/ reply = RInt 1).
  { cbn [run] in Hrun. repeat case_match; simplify_eq; auto. }
  destruct Hreply as [-> | ->]; reflexivity.
Qed.

Lemma validateSessionToken_run enc userId token w :
  decodeURIComponent enc = Some token ->
  validateSessionToken E enc userId w
  = match checkSessionTokenValidity userId token w with
    | (inr true, w') =>
        match getUserById E userId (users w') with
        | inr userInfo => (inr (Valid userInfo token), w')
        | inl e => (inl e, w')
        end
    | (inr false, w') => (inr Invalid, w')
    | (inl e, w') => (inl e, w')
    end.
Proof.
  intros Henc. unfold validateSessionToken. rewrite Henc. unfold bind.
  destruct (checkSessionTokenValidity userId token w) as [[e|[|]] w'];
    cbn [negb ret]; reflexivity.
Qed.

End ServiceFacts.

(* ===================================================================== *)
(** * The session registry: validity, cap and batch *)
(* ===================================================================== *)

Section RegistryClaims.

Implicit Types (w : World) (userId token : string).

(** C3. [checkSessionTokenValidity] always returns, and it returns [true]
    exactly when the token is in the registry of the user with a score
    strictly greater than the current time in epoch seconds. A token whose
    score is the current second, or an earlier one (score 432000 checked
    at second 432000 or 432001), is invalid. *)
Theorem checkValid_iff_score_after_now userId token w :
  (outcome (checkSessionTokenValidity userId token) w = inr true
   <-> exists score, score_of w userId token = Some score /\ clock w / 1000 < score)
  /\ (outcome (checkSessionTokenValidity userId token) w = inr false
      <-> ~ exists score, score_of w userId token = Some score /\ clock w / 1000 < score)
  /\ (score_of w userId token = Some 432000 ->
      clock w / 1000 = 432000 \/ clock w / 1000 = 432001 ->
      outcome (checkSessionTokenValidity userId token) w = inr false).
Proof.
  unfold outcome. rewrite checkSessionTokenValidity_run.
  destruct (score_of w userId token) as [score|] eqn:Hscore.
  - destruct (Z.ltb_spec (clock w / 1000) score) as [Hlt|Hge]; cbn [fst].
    + split; [|split].
      * split; [eauto|done].
      * split; [done|]. intros H. exfalso. eauto.
      * intros [= ->] [Hc|Hc]; lia.
    + split; [|split].
      * split; [done|]. intros (s & [= <-] & Hs). lia.
      * split; [|done]. intros _ (s & [= <-] & Hs). lia.
      * done.
  - cbn [fst]. split; [|split].
    + split; [done|]. now intros (s & ? & _).
    + split; [|done]. now intros _ (s & ? & _).
    + done.
Qed.

Lemma checkValid_iff_score_after_now_witness :
  outcome (checkSessionTokenValidity "u1" (Demo.token 1))
          (set_clock 432000000 Demo.world1) = inr false.
Proof.
  apply (checkValid_iff_score_after_now "u1" (Demo.token 1)
           (set_clock 432000000 Demo.world1)).
  - vm_compute. reflexivity.
  - left. vm_compute. reflexivity.
Defined.

(** C4. Over a connection that serves it, [addUserSession] always
    completes, and the registry of the user, as the next command on the
    connection finds it, then holds at most 8 entries. With a positive time
    to live, what is left is the sorted set after the insertion without its
    [cardinality - 8] lowest ranks, ranks 0 to [cardinality - 8 - 1], none
    of which expires later than an entry that stays; when the cardinality
    is above 8 they are removed by a ZREMRANGEBYRANK that the second
    [exec()] writes after the batch, which it writes once more. Nine logins
    of one user, a second apart, all return and leave the eight latest
    sessions: the first one, which expires first, is gone. *)
Theorem add_keeps_at_most_eight userId token expiresIn w :
  let ins := inserted w userId token expiresIn in
  let w' := after (addUserSession userId token expiresIn) w in
  outcome (addUserSession userId token expiresIn) w = inr tt
  /\ (length (registry w' userId) <= 8)%nat
  /\ (0 < expiresIn ->
      registry w' userId = drop (length ins - 8) ins
      /\ (forall a b,
             a ∈ take (length ins - 8) ins -> b ∈ registry w' userId -> a.2 <= b.2)
      /\ ((8 < length ins)%nat ->
          sent w'
          = (sent w ++
             [Transaction (add_batch w userId token expiresIn);
              Transaction (add_batch w userId token expiresIn);
              Pipelined [ZREMRANGEBYRANK (getSessionTokensKey userId) 0
                           (Z.of_nat (length ins) - 8 - 1)]])%list))
  /\ Demo.all_return "alice" 1000 9 Demo.world0 = true
  /\ (exists rest,
         registry (Demo.logins "alice" 1000 8 Demo.world0) "u1"
         = (Demo.token 1, 432000) :: rest
         /\ registry (Demo.logins "alice" 1000 9 Demo.world0) "u1"
            = (rest ++ [(Demo.token 9, 432008)])%list
         /\ length (rest ++ [(Demo.token 9, 432008)])%list = 8%nat
         /\ Forall (fun e => 432000 < e.2) (rest ++ [(Demo.token 9, 432008)])%list).
Proof.
  intros ins w'. subst w'.
  rewrite registry_after_add. fold ins.
  unfold outcome, after. rewrite addUserSession_run. fold ins. cbn [fst snd sent].
  split; [reflexivity|]. split; [|split; [|split]].
  - destruct (expiresIn <=? 0); [simpl; lia|]. rewrite length_capped. lia.
  - intros Httl.
    assert ((expiresIn <=? 0) = false) as -> by (apply Z.leb_gt; lia).
    split; [reflexivity|]. split.
    + intros a b Ha Hb. eapply ranked_take_drop; eauto. apply ranked_inserted.
    + intros Hcap. unfold add_trace, eviction, SESSIONS_TOKEN_LIMIT. fold ins.
      assert ((8 <? Z.of_nat (length ins)) = true) as -> by (apply Z.ltb_lt; lia).
      reflexivity.
  - vm_compute. reflexivity.
  - eexists. split; [vm_compute; reflexivity|].
    split; [vm_compute; reflexivity|].
    split; [vm_compute; reflexivity|].
    repeat constructor.
Qed.

Lemma add_keeps_at_most_eight_witness :
  let w8 := Demo.logins "alice" 1000 8 Demo.world0 in
  let ins := inserted w8 "u1" "t" 432000 in
  let w9 := after (addUserSession "u1" "t" 432000) w8 in
  registry w9 "u1" = drop (length ins - 8) ins
  /\ (Demo.token 1, 432000).2 <= ("t", 432008).2
  /\ last (sent w9) = Some (Pipelined [ZREMRANGEBYRANK "session-tokens:u1" 0 0]).
Proof.
  intros w8 ins w9.
  pose proof (add_keeps_at_most_eight "u1" "t" 432000 w8) as (_ & _ & H & _).
  destruct H as (Hdrop & Horder & Hsent); [lia|].
  split; [exact Hdrop|]. split.
  - apply Horder.
    + apply (list_elem_of_lookup_2 _ 0%nat). vm_compute. reflexivity.
    + apply (list_elem_of_lookup_2 _ 7%nat). vm_compute. reflexivity.
  - fold w9 in Hsent. rewrite Hsent by (vm_compute; lia).
    vm_compute. reflexivity.
Defined.

(** C5, as the code has it. [addUserSession] first sends one MULTI/EXEC
    block of three commands: ZADD of the token with score [now + ttl] in
    epoch seconds, ZCOUNT of the whole set, EXPIRE of the key with [ttl].
    When the block is served the call returns; the block leaves the token
    with that score, replies with the cardinality the set then has, and
    sets the time to live of the key to [ttl] seconds from now. When one of
    the three commands answers with an error, or [exec()] resolves to
    [null], the call throws INTERNAL_SERVER_ERROR, as it does for every
    result that is not an array, carries an error or has no numeric count.
    When [exec()] itself rejects, the call throws the error of the client as
    it is, and nothing has changed. A login at t = 0 returns and leaves one
    member with score 432000; a second one at t = 10 s returns and leaves
    the scores 432000 and 432010. *)
Theorem add_is_one_atomic_batch userId token expiresIn w :
  let key := getSessionTokensKey userId in
  let score := clock w / 1000 + expiresIn in
  let batch := [ZADD key (Number_toString score) token;
                ZCOUNT key "-inf" "+inf";
                EXPIRE key expiresIn] in
  let served := run_all (clock w) batch (db w) in
  let internal := TRPCError INTERNAL_SERVER_ERROR "Failed to add user session" in
  outcome (addUserSession userId token expiresIn) w = inr tt
  /\ (exists rest,
         sent (after (addUserSession userId token expiresIn) w)
         = (sent w ++ Transaction batch :: rest)%list)
  /\ (exists added,
         served.1 = [RInt added;
                     RInt (Z.of_nat (length (inserted w userId token expiresIn)));
                     RInt 1])
  /\ (0 < expiresIn ->
      live_members (clock w) served.2 key = inserted w userId token expiresIn
      /\ zfind token (live_members (clock w) served.2 key) = Some score
      /\ live_expire (clock w) served.2 key = Some (clock w + expiresIn * 1000))
  /\ (forall index message,
         (index < 3)%nat ->
         outcome (addUserSession_on (CommandError index message)
                    userId token expiresIn) w
         = inl internal)
  /\ (outcome (addUserSession_on Aborted userId token expiresIn) w = inl internal
      /\ db (after (addUserSession_on Aborted userId token expiresIn) w) = db w)
  /\ (forall message,
         addUserSession_on (Rejected message) userId token expiresIn w
         = (inl (PlainError message), w))
  /\ (forall pipeline results w0,
         batch_failed results = true ->
         addUserSession_after_exec key pipeline results w0 = (inl internal, w0))
  /\ batch_failed None = true
  /\ (forall results entry message,
         entry ∈ results -> entry.1 = Some message ->
         batch_failed (Some results) = true)
  /\ (forall results,
         sessionTokensCount (Some results) = None ->
         batch_failed (Some results) = true)
  /\ Demo.all_return "alice" 10000 2 Demo.world0 = true
  /\ registry (Demo.logins "alice" 10000 1 Demo.world0) "u1"
     = [(Demo.token 1, 432000)]
  /\ registry (Demo.logins "alice" 10000 2 Demo.world0) "u1"
     = [(Demo.token 1, 432000); (Demo.token 2, 432010)].
Proof.
  intros key score batch served internal.
  assert (Hthrow : forall pipeline results w0,
             batch_failed results = true ->
             addUserSession_after_exec key pipeline results w0 = (inl internal, w0)).
  { intros pipeline results w0 Hfail. unfold addUserSession_after_exec.
    now rewrite Hfail. }
  assert (Herr : forall results entry message,
             entry ∈ results -> entry.1 = Some message ->
             batch_failed (Some results) = true).
  { intros results entry message Hin Hentry. cbn [batch_failed].
    apply orb_true_iff. left. apply existsb_exists. exists entry.
    split; [now apply list_elem_of_In|].
    apply bool_decide_eq_true. now rewrite Hentry. }
  repeat match goal with |- _ /\ _ => split end.
  - unfold outcome. now rewrite addUserSession_run.
  - unfold after. rewrite addUserSession_run. cbn [snd sent]. unfold add_trace. eauto.
  - subst served batch. rewrite run_add_batch. cbn [fst]. eauto.
  - intros Httl. subst served batch. rewrite run_add_batch. cbn [snd].
    assert ((expiresIn <=? 0) = false) as -> by (apply Z.leb_gt; lia).
    assert (Hlive : expired (clock w)
                      {| members := inserted w userId token expiresIn;
                         expire_at := Some (clock w + expiresIn * 1000) |} = false)
      by (unfold expired; cbn [expire_at]; apply Z.ltb_ge; lia).
    split; [|split].
    + rewrite live_members_insert; [reflexivity|exact Hlive].
    + rewrite live_members_insert; [apply zfind_added|exact Hlive].
    + unfold live_expire. rewrite live_insert; [reflexivity|exact Hlive].
  - intros index message Hindex.
    unfold outcome, addUserSession_on, bind, Date_now.
    unfold pipeline_exec.
    cbn [redis_multi enqueue resolve resolved queue queued_later answer app fst snd].
    destruct (run_all_but _ _ _ _ _) as [replies db'] eqn:Hrun.
    cbn [fst snd]. rewrite (Hthrow _ (Some (map exec_entry replies))); [reflexivity|].
    apply (Herr _ (Some message, None) message); [|reflexivity].
    apply (list_elem_of_fmap_2 exec_entry _ (RErr message)).
    change replies with (replies, db').1. rewrite <- Hrun.
    apply run_all_but_error. cbn [length]. lia.
  - reflexivity.
  - reflexivity.
  - reflexivity.
  - exact Hthrow.
  - reflexivity.
  - exact Herr.
  - intros results Hcount. cbn [batch_failed].
    apply orb_true_iff. right. now apply bool_decide_eq_true.
  - vm_compute. reflexivity.
  - vm_compute. reflexivity.
  - vm_compute. reflexivity.
Qed.

Lemma add_is_one_atomic_batch_witness :
  zfind "t" (live_members (clock Demo.world1)
               (run_all (clock Demo.world1)
                  [ZADD (getSessionTokensKey "u1")
                        (Number_toString (clock Demo.world1 / 1000 + 432000)) "t";
                   ZCOUNT (getSessionTokensKey "u1") "-inf" "+inf";
                   EXPIRE (getSessionTokensKey "u1") 432000]
                  (db Demo.world1)).2
               (getSessionTokensKey "u1"))
  = Some (clock Demo.world1 / 1000 + 432000)
  /\ outcome (addUserSession_on (CommandError 1 "OOM command not allowed")
                "u1" "t" 432000) Demo.world1
     = inl (TRPCError INTERNAL_SERVER_ERROR "Failed to add user session")
  /\ addUserSession_after_exec (getSessionTokensKey "u1") (redis_multi Served) None
       Demo.world1
     = (inl (TRPCError INTERNAL_SERVER_ERROR "Failed to add user session"),
        Demo.world1)
  /\ batch_failed (Some [(None, Some (RInt 1)); (Some "ERR", None)]) = true
  /\ batch_failed (Some [(None, Some (RInt 1)); (None, Some RNil)]) = true.
Proof.
  pose proof (add_is_one_atomic_batch "u1" "t" 432000 Demo.world1)
    as (_ & _ & _ & Hrun & Hcommand & _ & _ & Hthrow & _ & Herr & Hcount & _).
  split; [|split; [|split; [|split]]].
  - apply Hrun. lia.
  - apply Hcommand. lia.
  - apply Hthrow. reflexivity.
  - apply (Herr _ (Some "ERR", None) "ERR"); [|reflexivity].
    apply (list_elem_of_lookup_2 _ 1%nat). reflexivity.
  - apply Hcount. reflexivity.
Defined.

(** C5, as stated, fails: when [exec()] rejects, the batch has failed and
    what the call throws is the error of the client, not an internal
    error. *)
Lemma add_rejected_exec_is_not_internal :
  outcome (addUserSession_on (Rejected "Connection is closed.") "u1" "t" 432000)
          Demo.world0
  = inl (PlainError "Connection is closed.")
  /\ ~ surfaces_internal
        (outcome (addUserSession_on (Rejected "Connection is closed.")
                    "u1" "t" 432000) Demo.world0).
Proof.
  split; [reflexivity|]. intros [message H]. vm_compute in H. discriminate.
Qed.

(** C8, as the code has it. For a token that is absent from the registry,
    [checkSessionTokenValidity] returns [false] and leaves the store as it
    was, but it does send the same ZREM as for an expired entry, which
    removes nothing. An entry that is present with a score not after the
    current second is removed before [false] is returned. *)
Theorem absent_token_store_unchanged userId token w :
  let key := getSessionTokensKey userId in
  let w' := after (checkSessionTokenValidity userId token) w in
  (score_of w userId token = None ->
   outcome (checkSessionTokenValidity userId token) w = inr false
   /\ db w' = db w
   /\ sent w' = (sent w ++ [Single (ZSCORE key token); Single (ZREM key token)])%list)
  /\ (forall score,
         score_of w userId token = Some score -> score <= clock w / 1000 ->
         outcome (checkSessionTokenValidity userId token) w = inr false
         /\ registry w' userId = zremove token (registry w userId)
         /\ score_of w' userId token = None
         /\ sent w' = (sent w ++ [Single (ZSCORE key token); Single (ZREM key token)])%list).
Proof.
  intros key w'. subst key w'. unfold outcome, after.
  rewrite checkSessionTokenValidity_run. split.
  - intros ->. unfold send. cbn [fst snd db sent]. rewrite <- app_assoc. done.
  - intros score -> Hle.
    assert ((clock w / 1000 <? score) = false) as -> by (apply Z.ltb_ge; lia).
    cbn [fst snd]. unfold score_of, registry, send. cbn [clock db sent].
    rewrite live_members_store, <- app_assoc.
    split; [done|]. split; [done|]. split; [apply zfind_zremove | done].
Qed.

Lemma absent_token_store_unchanged_witness :
  db (after (checkSessionTokenValidity "u1" "t") Demo.world1) = db Demo.world1
  /\ score_of (after (checkSessionTokenValidity "u1" (Demo.token 1))
                 (set_clock 432000000 Demo.world1)) "u1" (Demo.token 1) = None.
Proof.
  pose proof (absent_token_store_unchanged "u1" "t" Demo.world1) as [Habsent _].
  pose proof (absent_token_store_unchanged "u1" (Demo.token 1)
                (set_clock 432000000 Demo.world1)) as [_ Hexpired].
  split.
  - apply Habsent. vm_compute. reflexivity.
  - apply (Hexpired 432000); [vm_compute; reflexivity | vm_compute; discriminate].
Defined.

(** C8, as stated, fails: the token "t" is absent from the registry of "u1"
    in the empty world, and the ZREM still goes out after the read. *)
Lemma absent_token_zrem_is_sent :
  score_of Demo.world0 "u1" "t" = None
  /\ ~ (outcome (checkSessionTokenValidity "u1" "t") Demo.world0 = inr false
        /\ no_further_action "u1" "t" Demo.world0).
Proof.
  split; [reflexivity|]. intros [_ H]. vm_compute in H. discriminate.
Qed.

End RegistryClaims.

(* ===================================================================== *)
(** * The session service: login, logout, validation *)
(* ===================================================================== *)

Section ServiceClaims.

Variable E : Env.

Implicit Types (w : World) (userId token accessToken : string).

(** Whatever the [try] block of [login] throws, the [catch] block throws
    again: a [TRPCError] or another [Error] as UNAUTHORIZED with the same
    message, anything else as INTERNAL_SERVER_ERROR. *)
Lemma login_catch_run (error : Thrown) w :
  login_catch error w
  = (inl (match error with
          | TRPCError _ message | PlainError message =>
              TRPCError UNAUTHORIZED message
          | NonError _ => TRPCError INTERNAL_SERVER_ERROR "Failed to login"
          end), w).
Proof. destruct error; reflexivity. Qed.

Lemma generateSessionToken_run userId w :
  generateSessionToken E userId w = (inr (minted E userId w), next_draw (next_draw w)).
Proof. reflexivity. Qed.

(** A login that returns has verified the token, obtained the user from
    the profile store, minted a token, registered it and appended the two
    cookies, in this order and all at the time of the call. *)
Lemma login_returns accessToken w user w' :
  login E accessToken w = (inr user, w') ->
  exists args rows,
    upsertUser E args (users w) = (inr (Some user), rows)
    /\ let w0 := set_users rows w in
       let token := minted E (User_id user) w0 in
       let w1 := after (addUserSession (User_id user) token 432000)
                       (next_draw (next_draw w0)) in
       w' = append_header "Set-Cookie"
              (secure_cookie E (clock w) 432000 USER_ID_COOKIE_KEY (User_id user)).2
              (append_header "Set-Cookie"
                 (secure_cookie E (clock w) 432000 SESSION_TOKEN_COOKIE_KEY
                    (encodeURIComponent token)).2
                 w1).
Proof.
  intros Hlogin. revert Hlogin.
  unfold login, try_catch, login_try. unfold bind at 1.
  destruct (verifyIdToken E accessToken (clock w)) as [e|verified];
    [rewrite login_catch_run; discriminate|].
  destruct (token_email verified) as [email|];
    [|unfold throw; rewrite login_catch_run; discriminate].
  unfold bind at 1.
  match goal with
  | |- context [upsertUser E ?a (users w)] =>
      destruct (upsertUser E a (users w)) as [[e|[userInfo|]] rows] eqn:Hupsert;
      [ rewrite login_catch_run; discriminate
      | intros Hlogin; exists a, rows; revert Hlogin
      | unfold throw; rewrite login_catch_run; discriminate ]
  end.
  unfold bind at 1. unfold generateSessionToken, bind, Date_now, ret.
  cbv zeta. unfold after, minted.
  cbn [clock rng set_users next_draw].
  change (60 * 60 * 24 * 5) with 432000.
  rewrite addUserSession_run.
  unfold createSecureCookie, bind, Date_now, secure_cookie.
  cbn [clock rng set_users next_draw append_header fst snd].
  intros [= <- <-]. split; [exact Hupsert|].
  rewrite addUserSession_run. reflexivity.
Qed.

(** The two cookies of a login carry the date [Date.now() + 432000], the
    clock in milliseconds plus the time to live in seconds. *)
Lemma login_cookies accessToken w user w' :
  login E accessToken w = (inr user, w') ->
  exists token,
    headers w'
    = (headers w ++
       [secure_cookie E (clock w) 432000 SESSION_TOKEN_COOKIE_KEY
          (encodeURIComponent token);
        secure_cookie E (clock w) 432000 USER_ID_COOKIE_KEY (User_id user)])%list
    /\ (sent w' = sent w ++ add_trace w (User_id user) token 432000)%list.
Proof.
  intros (args & rows & _ & ->)%login_returns. cbv zeta.
  eexists. unfold after. rewrite addUserSession_run.
  unfold append_header, secure_cookie. cbn [headers sent snd].
  rewrite <- app_assoc. split; reflexivity.
Qed.

(** A login that does not push the registry over the cap can be validated
    with the cookie it set, as long as the clock has not reached the second
    the session expires at. *)
Lemma login_then_validate_below_cap accessToken w user w' later :
  login E accessToken w = (inr user, w') ->
  exists token,
    (is_ascii token = true ->
     (length (zremove token (registry w (User_id user))) < 8)%nat ->
     clock w <= later -> later / 1000 < clock w / 1000 + 432000 ->
     forall userInfo,
       getUserById E (User_id user) (users w') = inr userInfo ->
       outcome (validateSessionToken E (encodeURIComponent token) (User_id user))
               (set_clock later w')
       = inr (Valid userInfo token)).
Proof.
  intros (args & rows & _ & ->)%login_returns. cbv zeta.
  set (w0 := set_users rows w). set (token := minted E (User_id user) w0).
  exists token. intros Hascii Hroom Hclock Hlater userInfo Hget.
  unfold outcome.
  rewrite (validateSessionToken_run E _ _ token) by now apply decode_encode_ascii.
  rewrite checkSessionTokenValidity_run.
  unfold after. rewrite addUserSession_run.
  unfold score_of, registry, append_header, set_clock.
  cbn [clock db snd users sent rng headers next_draw].
  change (db w0) with (db w). change (clock w0) with (clock w).
  change (432000 <=? 0) with false. cbv iota.
  rewrite live_members_insert.
  2:{ unfold expired. cbn [expire_at]. apply Z.ltb_ge.
      pose proof (Z.div_mod later 1000 ltac:(lia)).
      pose proof (Z.mod_pos_bound later 1000 ltac:(lia)).
      pose proof (Z.div_mod (clock w) 1000 ltac:(lia)).
      pose proof (Z.mod_pos_bound (clock w) 1000 ltac:(lia)).
      lia. }
  cbn [members].
  assert (Hcap : capped (inserted (next_draw (next_draw w0)) (User_id user) token 432000)
                 = inserted (next_draw (next_draw w0)) (User_id user) token 432000).
  { unfold capped. rewrite length_inserted.
    change (registry (next_draw (next_draw w0)) (User_id user))
      with (registry w (User_id user)).
    replace (S (length (zremove token (registry w (User_id user)))) - 8)%nat
      with 0%nat by lia.
    reflexivity. }
  rewrite Hcap. unfold inserted. rewrite zfind_added.
  change (clock (next_draw (next_draw w0))) with (clock w).
  assert ((later / 1000 <? clock w / 1000 + 432000) = true) as ->
    by (apply Z.ltb_lt; lia).
  unfold send. cbn [users].
  unfold after in Hget. rewrite addUserSession_run in Hget.
  unfold append_header in Hget. cbn [users snd next_draw] in Hget.
  now rewrite Hget.
Qed.

(** C7. [logout] always returns, also a second time in a row and whether
    or not the token was in the registry; after it the token is not in the
    registry of the user, and [validateSessionToken] with a cookie value
    that decodes to the token returns the negative result at any later
    time. *)
Theorem logout_revokes_and_never_throws userId token w :
  let w' := after (logout E userId token) w in
  outcome (logout E userId token) w = inr tt
  /\ outcome (logout E userId token) w' = inr tt
  /\ score_of w' userId token = None
  /\ (forall enc later,
         decodeURIComponent enc = Some token -> clock w <= later ->
         outcome (validateSessionToken E enc userId) (set_clock later w')
         = inr Invalid).
Proof.
  intros w'. subst w'. unfold outcome, after.
  rewrite !logout_run. cbn [fst snd].
  split; [reflexivity|]. split; [reflexivity|].
  assert (Hgone : forall later, clock w <= later ->
            score_of
              (set_clock later
                 (after (deleteCookie E USER_ID_COOKIE_KEY)
                    (after (deleteCookie E SESSION_TOKEN_COOKIE_KEY)
                       (send (Single (ZREM (getSessionTokensKey userId) token))
                          (run (clock w) (ZREM (getSessionTokensKey userId) token)
                             (db w)).2 w)))) userId token = None).
  { intros later Hle. unfold score_of, registry. cbn [clock db after deleteCookie snd].
    now apply zrem_gone. }
  split.
  - apply (Hgone (clock w)). lia.
  - intros enc later Henc Hle.
    rewrite (validateSessionToken_run E _ _ token _ Henc).
    rewrite checkSessionTokenValidity_run, (Hgone later Hle). reflexivity.
Qed.

(** C10. When [validateSessionToken] returns the positive result, the token
    in it is [decodeURIComponent] of the cookie value, the one the registry
    holds with a score after the current second, and the profile in it is
    what the profile store has for the user; it is [null] when the store
    has no record, although the session is valid. *)
Theorem validate_returns_decoded_token enc userId w :
  (forall userInfo token,
      outcome (validateSessionToken E enc userId) w = inr (Valid userInfo token) ->
      decodeURIComponent enc = Some token
      /\ getUserById E userId (users w) = inr userInfo
      /\ exists score,
           score_of w userId token = Some score /\ clock w / 1000 < score)
  /\ (forall token score,
         decodeURIComponent enc = Some token ->
         score_of w userId token = Some score -> clock w / 1000 < score ->
         getUserById E userId (users w) = inr None ->
         outcome (validateSessionToken E enc userId) w = inr (Valid None token)).
Proof.
  unfold outcome. split.
  - intros userInfo token.
    destruct (decodeURIComponent enc) as [decoded|] eqn:Henc;
      [|unfold validateSessionToken; now rewrite Henc].
    rewrite (validateSessionToken_run E _ _ decoded _ Henc).
    rewrite checkSessionTokenValidity_run.
    destruct (score_of w userId decoded) as [score|] eqn:Hscore; [|discriminate].
    destruct (Z.ltb_spec (clock w / 1000) score); [|discriminate].
    unfold send. cbn [users].
    destruct (getUserById E userId (users w)) as [e|found]; [discriminate|].
    cbn [fst]. intros [= <- <-]. eauto.
  - intros token score Henc Hscore Hlt Hget.
    rewrite (validateSessionToken_run E _ _ token _ Henc).
    rewrite checkSessionTokenValidity_run, Hscore.
    assert ((clock w / 1000 <? score) = true) as -> by now apply Z.ltb_lt.
    unfold send. cbn [users]. now rewrite Hget.
Qed.

End ServiceClaims.

Lemma logout_revokes_and_never_throws_witness :
  outcome (validateSessionToken Demo.env (encodeURIComponent (Demo.token 1)) "u1")
          (set_clock 1000
             (after (logout Demo.env "u1" (Demo.token 1)) Demo.world1))
  = inr Invalid.
Proof.
  apply (logout_revokes_and_never_throws Demo.env "u1" (Demo.token 1) Demo.world1).
  - vm_compute. reflexivity.
  - vm_compute. discriminate.
Defined.

Lemma validate_returns_decoded_token_witness :
  outcome (validateSessionToken Demo.env (encodeURIComponent (Demo.token 1)) "u1")
          (set_users [] Demo.world1)
  = inr (Valid None (Demo.token 1))
  /\ decodeURIComponent (encodeURIComponent (Demo.token 1)) = Some (Demo.token 1).
Proof.
  pose proof (validate_returns_decoded_token Demo.env
                (encodeURIComponent (Demo.token 1)) "u1"
                (set_users [] Demo.world1)) as [Hvalid Hnull].
  assert (Hout : outcome (validateSessionToken Demo.env
                            (encodeURIComponent (Demo.token 1)) "u1")
                         (set_users [] Demo.world1)
                 = inr (Valid None (Demo.token 1))).
  { apply (Hnull (Demo.token 1) 432000).
    - vm_compute. reflexivity.
    - vm_compute. reflexivity.
    - vm_compute. reflexivity.
    - vm_compute. reflexivity. }
  split; [exact Hout|]. exact (proj1 (Hvalid None (Demo.token 1) Hout)).
Defined.

(* ===================================================================== *)
(** * Where the code departs from the specification *)
(* ===================================================================== *)

(** C1. The [catch] block of [login] tests [instanceof Error] first, and a
    [TRPCError] is an [Error]: every [TRPCError] thrown in the [try] block
    comes out as UNAUTHORIZED, the INTERNAL_SERVER_ERROR of a profile store
    without a record included. *)
Theorem login_internal_error_surfaces_unauthorized :
  (forall code message w,
      login_catch (TRPCError code message) w
      = (inl (TRPCError UNAUTHORIZED message), w))
  /\ outcome (login_try Demo.env_no_record "alice") Demo.world0
     = inl (TRPCError INTERNAL_SERVER_ERROR "Failed to login")
  /\ outcome (login Demo.env_no_record "alice") Demo.world0
     = inl (TRPCError UNAUTHORIZED "Failed to login").
Proof. split; [reflexivity|]. split; vm_compute; reflexivity. Qed.

(** C2. A login at time 0 registers a session that expires at second
    432000, that is on 6 January 1970, and sets two cookies that expire
    432000 milliseconds after the login, 7 minutes and 12 seconds into
    1 January 1970. *)
Theorem login_cookies_expire_after_432_seconds :
  clock Demo.world0 = 0
  /\ registry Demo.world1 "u1" = [(Demo.token 1, 432000)]
  /\ Date_toUTCString (432000 * 1000) = "Tue, 06 Jan 1970 00:00:00 GMT"
  /\ headers Demo.world1
     = [("Set-Cookie",
         "x-session-token=%24argon2id%24v%3D19%24m%3D65536%2Ct%3D3%2Cp%3D4%24y; HttpOnly; Path=/; SameSite=Lax; Secure; Expires=Thu, 01 Jan 1970 00:07:12 GMT");
        ("Set-Cookie",
         "x-user-id=u1; HttpOnly; Path=/; SameSite=Lax; Secure; Expires=Thu, 01 Jan 1970 00:07:12 GMT")].
Proof. repeat split; vm_compute; reflexivity. Qed.

(** C6. The ninth login of a user within one second, with a token that
    sorts before the eight the registry holds: the login returns the user
    and sets the cookie, the cap removes rank 0, which is the new token, and
    validating the cookie right away gives the negative result. *)
Theorem ninth_login_in_one_second_is_not_valid :
  let w8 := Demo.logins "alice" 100 8 Demo.world0 in
  let w9 := after (login Demo.env "alice") w8 in
  clock w8 = 800
  /\ map snd (registry w8 "u1") = repeat 432000 8
  /\ outcome (login Demo.env "alice") w8
     = inr {| User_id := "u1"; User_email := "alice@example.com";
              User_name := Some "alice"; User_imageUrl := None |}
  /\ (exists expires,
         headers w9 !! 16%nat
         = Some ("Set-Cookie",
                 "x-session-token=" +:+ encodeURIComponent (Demo.token 9) +:+ expires))
  /\ last (sent w9) = Some (Pipelined [ZREMRANGEBYRANK "session-tokens:u1" 0 0])
  /\ registry w9 "u1" = registry w8 "u1"
  /\ outcome (validateSessionToken Demo.env (encodeURIComponent (Demo.token 9)) "u1") w9
     = inr Invalid.
Proof.
  cbv zeta.
  split; [vm_compute; reflexivity|]. split; [vm_compute; reflexivity|].
  split; [vm_compute; reflexivity|]. split; [eexists; vm_compute; reflexivity|].
  split; [vm_compute; reflexivity|]. split; vm_compute; reflexivity.
Qed.

(* ===================================================================== *)
(** * More on sorted sets and on the commands *)
(* ===================================================================== *)

Section MoreSortedSetFacts.

Implicit Types (e : string * Z) (l ms : zset) (member : string).

Lemma zfind_zremove_ne member other l :
  other <> member -> zfind other (zremove member l) = zfind other l.
Proof.
  intros Hne. unfold zremove. induction l as [|x l IH]; [done|].
  rewrite filter_cons. simpl.
  destruct (decide (x.1 <> member)) as [Hx|Hx]; simpl.
  - now rewrite IH.
  - apply dec_stable in Hx. rewrite decide_False by congruence. exact IH.
Qed.

Lemma zinsert_perm e l : zinsert e l ≡ₚ e :: l.
Proof.
  induction l as [|x l IH]; [done|]. simpl.
  destruct (entry_le e x); [done|]. rewrite IH. apply Permutation_swap.
Qed.

Lemma zsort_perm l : zsort l ≡ₚ l.
Proof.
  induction l as [|x l IH]; [done|]. simpl.
  now rewrite zinsert_perm, IH.
Qed.

Lemma zfind_Some_elem member (s : Z) l :
  zfind member l = Some s -> (member, s) ∈ l.
Proof.
  induction l as [|[m s'] l IH]; [done|]. simpl.
  destruct (decide (m = member)) as [->|]; [intros [= ->]; left|right; auto].
Qed.

Lemma zfind_None_not_elem member l :
  zfind member l = None -> member ∉ l.*1.
Proof.
  induction l as [|[m s'] l IH]; simpl; [intros _; apply not_elem_of_nil|].
  destruct (decide (m = member)); [done|]. intros Hl.
  apply not_elem_of_cons. auto.
Qed.

Lemma zfind_elem_distinct member (s : Z) l :
  distinct_members l -> (member, s) ∈ l -> zfind member l = Some s.
Proof.
  unfold distinct_members. induction l as [|[m s'] l IH]; [inversion 2|].
  rewrite fmap_cons, NoDup_cons. simpl. intros [Hm Hl] Hin.
  apply elem_of_cons in Hin as [[= <- <-]|Hin].
  - now rewrite decide_True.
  - destruct (decide (m = member)) as [->|]; [|auto].
    exfalso. apply Hm. apply (list_elem_of_fmap_2 fst) in Hin. exact Hin.
Qed.

(** With distinct members, the order of the list does not matter to a
    lookup. *)
Lemma zfind_perm_distinct member l l' :
  distinct_members l -> l ≡ₚ l' -> zfind member l' = zfind member l.
Proof.
  intros Hl Hperm.
  assert (Hl' : distinct_members l').
  { unfold distinct_members in *. now rewrite <- Hperm. }
  destruct (zfind member l) as [s|] eqn:Hfind.
  - apply zfind_elem_distinct; [done|]. rewrite <- Hperm.
    now apply zfind_Some_elem.
  - destruct (zfind member l') as [s|] eqn:Hfind'; [|done].
    apply zfind_Some_elem in Hfind'. rewrite <- Hperm in Hfind'.
    apply (zfind_elem_distinct _ _ _ Hl) in Hfind'. congruence.
Qed.

Lemma distinct_zremove member l : distinct_members l -> distinct_members (zremove member l).
Proof.
  unfold distinct_members, zremove. induction l as [|x l IH]; [done|].
  rewrite fmap_cons, NoDup_cons, filter_cons. intros [Hx Hl].
  destruct (decide (x.1 <> member)); [|auto].
  rewrite fmap_cons, NoDup_cons. split; [|auto].
  intros Hin. apply Hx. apply list_elem_of_fmap in Hin as (y & -> & Hy).
  apply list_elem_of_fmap. exists y. split; [done|].
  now apply list_elem_of_filter in Hy as [_ Hy].
Qed.

Lemma distinct_added member (s : Z) l :
  distinct_members l -> distinct_members (zsort ((member, s) :: zremove member l)).
Proof.
  intros Hl. unfold distinct_members. rewrite zsort_perm.
  rewrite fmap_cons, NoDup_cons. split; [|now apply distinct_zremove].
  apply zfind_None_not_elem, zfind_zremove.
Qed.

Lemma distinct_drop (n : nat) l : distinct_members l -> distinct_members (drop n l).
Proof.
  unfold distinct_members. rewrite fmap_drop.
  intros Hl. eapply sublist_NoDup; [exact Hl | apply sublist_drop].
Qed.

Lemma length_zremove_present member (s : Z) l :
  distinct_members l -> zfind member l = Some s ->
  S (length (zremove member l)) = length l.
Proof.
  unfold distinct_members, zremove. induction l as [|[m s'] l IH]; [done|].
  rewrite fmap_cons, NoDup_cons, filter_cons. simpl. intros [Hm Hl].
  destruct (decide (m = member)) as [->|Hne].
  - intros _. rewrite decide_False by (intros H; now apply H).
    f_equal. fold (zremove member l). f_equal. apply zfind_None_zremove.
    destruct (zfind member l) as [s0|] eqn:Hfind; [|done].
    exfalso. apply Hm. apply zfind_Some_elem in Hfind.
    now apply (list_elem_of_fmap_2 fst) in Hfind.
  - intros Hfind. rewrite decide_True by done. simpl. f_equal. auto.
Qed.

(** The score a member is found with after it was added is the score it
    was given, also in a part of the sorted set. *)
Lemma zfind_added_part member (s s' : Z) l (n : nat) :
  zfind member (drop n (zsort ((member, s) :: zremove member l))) = Some s' ->
  s' = s.
Proof.
  intros Hin%zfind_Some_elem.
  apply (subseteq_drop n) in Hin. rewrite zsort_perm in Hin.
  apply elem_of_cons in Hin as [[= ->]|Hin]; [done|].
  unfold zremove in Hin. apply list_elem_of_filter in Hin as [Hne _]. done.
Qed.

Lemma zfind_app member l l' :
  zfind member (l ++ l')
  = match zfind member l with Some s => Some s | None => zfind member l' end.
Proof.
  induction l as [|x l IH]; [done|]. simpl. now destruct (decide (x.1 = member)).
Qed.

Lemma zfind_None_drop member l (n : nat) :
  zfind member l = None -> zfind member (drop n l) = None.
Proof.
  intros Hnone%zfind_None_not_elem.
  destruct (zfind member (drop n l)) as [s|] eqn:Hfind; [|done].
  exfalso. apply Hnone. apply zfind_Some_elem in Hfind.
  apply (subseteq_drop n) in Hfind. now apply (list_elem_of_fmap_2 fst) in Hfind.
Qed.

(** A member whose score is above all the others goes to the highest
    rank. *)
Lemma zinsert_top e l : (forall x, x ∈ l -> x.2 < e.2) -> zinsert e l = (l ++ [e])%list.
Proof.
  induction l as [|x l IH]; [done|]. intros Hall. simpl.
  assert (Hx : x.2 < e.2) by (apply Hall; left).
  unfold entry_le.
  assert ((e.2 <? x.2) = false) as -> by (apply Z.ltb_ge; lia).
  assert ((e.2 =? x.2) = false) as -> by (apply Z.eqb_neq; lia).
  simpl. rewrite IH; [done|]. intros y Hy. apply Hall. now right.
Qed.

End MoreSortedSetFacts.

Section MoreCommandFacts.

Implicit Types (db : gmap string RedisKey) (key : string) (ms : zset).

Lemma getSessionTokensKey_inj userId other :
  getSessionTokensKey userId = getSessionTokensKey other -> userId = other.
Proof. unfold getSessionTokensKey. apply String.app_inj. Qed.

Lemma live_insert_ne now db key other k :
  key <> other -> live now (<[key := k]> db) other = live now db other.
Proof. intros Hne. unfold live. now rewrite lookup_insert_ne. Qed.

Lemma live_delete_ne now db key other :
  key <> other -> live now (delete key db) other = live now db other.
Proof. intros Hne. unfold live. now rewrite lookup_delete_ne. Qed.

Lemma live_store_ne now db key other ms ttl :
  key <> other -> live now (store key ms ttl db) other = live now db other.
Proof.
  intros Hne. destruct ms; cbn [store];
    [now apply live_delete_ne | now apply live_insert_ne].
Qed.

Lemma live_run_ZREM_ne now later db key other token :
  key <> other ->
  live later (run now (ZREM key token) db).2 other = live later db other.
Proof.
  intros Hne. cbn [run]. repeat case_match; cbn [snd]; try done.
  now apply live_store_ne.
Qed.

End MoreCommandFacts.

(* ===================================================================== *)
(** * The session registry: what an operation leaves alone *)
(* ===================================================================== *)

Section RegistryExtras.

Implicit Types (w : World) (userId other token : string).

Lemma key_ne userId other :
  userId <> other -> getSessionTokensKey userId <> getSessionTokensKey other.
Proof. intros Hne Hkey. now apply Hne, getSessionTokensKey_inj. Qed.

Lemma live_expire_Some now (db : gmap string RedisKey) key k :
  live now db key = Some k -> live_expire now db key = expire_at k.
Proof. unfold live_expire. now intros ->. Qed.

(** The members under a key after ZREM of one of them. *)
Lemma live_members_run_ZREM now (db : gmap string RedisKey) key token :
  live_members now (run now (ZREM key token) db).2 key
  = zremove token (live_members now db key).
Proof.
  cbn [run]. unfold live_members at 2.
  destruct (live now db key) as [k|] eqn:Hlive; cbn [snd from_option].
  - destruct (zfind token (members k)) as [s|] eqn:Hfind; cbn [snd].
    + rewrite <- (live_expire_Some _ _ _ _ Hlive). apply live_members_store.
    + unfold live_members. rewrite Hlive. cbn [from_option].
      now rewrite zfind_None_zremove.
  - unfold live_members. now rewrite Hlive.
Qed.

Lemma deleteSessionToken_run userId token w :
  deleteSessionToken userId token w
  = (inr tt,
     send (Single (ZREM (getSessionTokensKey userId) token))
          (run (clock w) (ZREM (getSessionTokensKey userId) token) (db w)).2 w).
Proof.
  unfold deleteSessionToken, redis_zrem, redis_call, bind, ret.
  destruct (run (clock w) (ZREM (getSessionTokensKey userId) token) (db w))
    as [reply db'] eqn:Hrun.
  assert (Hreply : reply = RInt 0 \/ reply = RInt 1).
  { cbn [run] in Hrun. repeat case_match; simplify_eq; auto. }
  destruct Hreply as [-> | ->]; reflexivity.
Qed.

(** The registry of the user after [deleteSessionToken], and the
    registries of the others. *)
Lemma registry_after_delete userId token w other :
  registry (after (deleteSessionToken userId token) w) other
  = if decide (userId = other) then zremove token (registry w userId)
    else registry w other.
Proof.
  unfold after. rewrite deleteSessionToken_run. unfold registry, send.
  cbn [snd clock db]. destruct (decide (userId = other)) as [<-|Hne].
  - apply live_members_run_ZREM.
  - unfold live_members. now rewrite live_run_ZREM_ne by now apply key_ne.
Qed.

(** The registry of the user after [checkSessionTokenValidity]. *)
Lemma registry_after_check userId token w other :
  registry (after (checkSessionTokenValidity userId token) w) other
  = if decide (userId = other)
    then (if outcome (checkSessionTokenValidity userId token) w is inr true
          then registry w userId
          else zremove token (registry w userId))
    else registry w other.
Proof.
  unfold after, outcome. rewrite checkSessionTokenValidity_run.
  destruct (score_of w userId token) as [score|] eqn:Hscore.
  - destruct (clock w / 1000 <? score); cbn [fst snd].
    + unfold registry, send. cbn [clock db]. now destruct (decide _) as [<-|].
    + unfold registry, send. cbn [clock db].
      destruct (decide (userId = other)) as [<-|Hne].
      * apply live_members_store.
      * unfold live_members. now rewrite live_store_ne by now apply key_ne.
  - cbn [fst snd]. unfold registry, send. cbn [clock db].
    destruct (decide (userId = other)) as [<-|Hne]; [|done].
    symmetry. now apply zfind_None_zremove.
Qed.

Lemma registry_later_after_add userId token expiresIn w later :
  0 < expiresIn -> later <= clock w + expiresIn * 1000 ->
  registry (set_clock later (after (addUserSession userId token expiresIn) w)) userId
  = capped (inserted w userId token expiresIn).
Proof.
  intros Httl Hlater. unfold after. rewrite addUserSession_run.
  unfold registry, set_clock. cbn [snd clock db].
  assert ((expiresIn <=? 0) = false) as -> by (apply Z.leb_gt; lia).
  rewrite live_members_insert; [reflexivity|].
  unfold expired. cbn [expire_at]. apply Z.ltb_ge. lia.
Qed.

Lemma capped_below ms : (length ms <= 8)%nat -> capped ms = ms.
Proof. intros H. unfold capped. now replace (length ms - 8)%nat with 0%nat by lia. Qed.

Lemma registry_after_add_other userId other token expiresIn w :
  userId <> other ->
  registry (after (addUserSession userId token expiresIn) w) other
  = registry w other.
Proof.
  intros Hne%key_ne. unfold after. rewrite addUserSession_run.
  unfold registry, live_members. cbn [snd clock db].
  destruct (expiresIn <=? 0);
    [now rewrite live_delete_ne | now rewrite live_insert_ne].
Qed.

(** X1. [addUserSession] for one user leaves the registry of every other
    user as it was: no token of another user is removed, added or given a
    new score, also when the cap evicts sessions of the user. *)
Theorem add_leaves_other_users userId other token expiresIn w :
  userId <> other ->
  registry (after (addUserSession userId token expiresIn) w) other
  = registry w other
  /\ forall token',
       score_of (after (addUserSession userId token expiresIn) w) other token'
       = score_of w other token'.
Proof.
  intros Hne. split; [now apply registry_after_add_other|].
  intros token'. unfold score_of. now rewrite registry_after_add_other.
Qed.

Lemma add_leaves_other_users_witness :
  registry (after (addUserSession "u2" "t" 432000) Demo.world1) "u1"
  = registry Demo.world1 "u1".
Proof. apply add_leaves_other_users. discriminate. Defined.

(** X2. [deleteSessionToken] returns, sends one ZREM of the token on the
    key of the user, and removes the given token of the given user: the
    token has no score afterwards. It removes nothing else: every other
    token of the user and every token of another user keeps the score it
    had. *)
Theorem delete_removes_only_that_token userId token w :
  outcome (deleteSessionToken userId token) w = inr tt
  /\ score_of (after (deleteSessionToken userId token) w) userId token = None
  /\ (forall other token',
        userId <> other \/ token <> token' ->
        score_of (after (deleteSessionToken userId token) w) other token'
        = score_of w other token')
  /\ sent (after (deleteSessionToken userId token) w)
     = (sent w ++ [Single (ZREM (getSessionTokensKey userId) token)])%list.
Proof.
  split; [|split; [|split]].
  - unfold outcome. now rewrite deleteSessionToken_run.
  - unfold score_of. rewrite registry_after_delete.
    destruct (decide (userId = userId)); [|done]. apply zfind_zremove.
  - intros other token' Hne. unfold score_of. rewrite registry_after_delete.
    destruct (decide (userId = other)) as [<-|]; [|done].
    destruct Hne as [|Hne]; [done|]. apply zfind_zremove_ne. congruence.
  - unfold after. now rewrite deleteSessionToken_run.
Qed.

Lemma delete_removes_only_that_token_witness :
  let w2 := Demo.logins "alice" 1000 2 Demo.world0 in
  score_of w2 "u1" (Demo.token 1) = Some 432000
  /\ score_of (after (deleteSessionToken "u1" (Demo.token 1)) w2) "u1" (Demo.token 1)
     = None
  /\ score_of (after (deleteSessionToken "u1" (Demo.token 1)) w2) "u1" (Demo.token 2)
     = score_of w2 "u1" (Demo.token 2).
Proof.
  intros w2.
  pose proof (delete_removes_only_that_token "u1" (Demo.token 1) w2)
    as (_ & Hgone & Hkept & _).
  split; [vm_compute; reflexivity|]. split; [exact Hgone|].
  apply Hkept. right. vm_compute. discriminate.
Defined.

(** X3. [checkSessionTokenValidity] never changes the score of another
    token of the user, nor of any token of another user, whatever it
    returns. *)
Theorem check_touches_only_that_token userId token w other token' :
  userId <> other \/ token <> token' ->
  score_of (after (checkSessionTokenValidity userId token) w) other token'
  = score_of w other token'.
Proof.
  intros Hne. unfold score_of. rewrite registry_after_check.
  destruct (decide (userId = other)) as [<-|]; [|done].
  destruct Hne as [|Hne]; [done|].
  destruct (outcome _ w) as [|[|]]; [|done|]; apply zfind_zremove_ne; congruence.
Qed.

Lemma check_touches_only_that_token_witness :
  let w2 := set_clock 432000500 (Demo.logins "alice" 1000 2 Demo.world0) in
  outcome (checkSessionTokenValidity "u1" (Demo.token 1)) w2 = inr false
  /\ score_of (after (checkSessionTokenValidity "u1" (Demo.token 1)) w2)
       "u1" (Demo.token 2)
     = score_of w2 "u1" (Demo.token 2).
Proof.
  intros w2. split; [vm_compute; reflexivity|].
  apply check_touches_only_that_token. right. vm_compute. discriminate.
Defined.

(** X4. When [checkSessionTokenValidity] returns [true] it has only read:
    the store is as before, the only command sent is the ZSCORE, and asking
    again at the same time gives [true] again. *)
Theorem valid_check_only_reads userId token w :
  outcome (checkSessionTokenValidity userId token) w = inr true ->
  let w' := after (checkSessionTokenValidity userId token) w in
  db w' = db w
  /\ sent w' = (sent w ++ [Single (ZSCORE (getSessionTokensKey userId) token)])%list
  /\ outcome (checkSessionTokenValidity userId token) w' = inr true.
Proof.
  unfold outcome, after. rewrite checkSessionTokenValidity_run.
  destruct (score_of w userId token) as [score|] eqn:Hscore; [|discriminate].
  destruct (clock w / 1000 <? score) eqn:Hlt; [|discriminate].
  intros _. cbn [fst snd]. split; [done|]. split; [done|].
  rewrite checkSessionTokenValidity_run.
  change (score_of (send _ (db w) w) userId token) with (score_of w userId token).
  rewrite Hscore. cbn [send clock]. unfold send. cbn [clock]. now rewrite Hlt.
Qed.

Lemma valid_check_only_reads_witness :
  db (after (checkSessionTokenValidity "u1" (Demo.token 1)) Demo.world1)
  = db Demo.world1.
Proof.
  apply (valid_check_only_reads "u1" (Demo.token 1) Demo.world1).
  vm_compute. reflexivity.
Defined.

(** X5. [addUserSession] with a time to live that is not positive returns
    normally and leaves the user without any session: the EXPIRE of the
    batch deletes the key, the sessions that were there included. *)
Theorem add_without_time_to_live_clears userId token expiresIn w :
  expiresIn <= 0 ->
  outcome (addUserSession userId token expiresIn) w = inr tt
  /\ registry (after (addUserSession userId token expiresIn) w) userId = []
  /\ db (after (addUserSession userId token expiresIn) w)
       !! getSessionTokensKey userId = None.
Proof.
  intros Httl. rewrite registry_after_add. unfold outcome, after.
  rewrite addUserSession_run. cbn [fst snd db].
  assert ((expiresIn <=? 0) = true) as -> by now apply Z.leb_le.
  split; [done|]. split; [done|]. apply lookup_delete_eq.
Qed.

Lemma add_without_time_to_live_clears_witness :
  registry Demo.world1 "u1" <> []
  /\ registry (after (addUserSession "u1" "t" 0) Demo.world1) "u1" = [].
Proof.
  split; [vm_compute; discriminate|].
  apply (add_without_time_to_live_clears "u1" "t" 0 Demo.world1). lia.
Defined.

(** X6. A token added with a positive time to live while the user has
    fewer than 8 other sessions is valid from then on, until the clock
    reaches the second of its score. *)
Theorem add_then_check_valid userId token expiresIn w later :
  0 < expiresIn ->
  (length (zremove token (registry w userId)) < 8)%nat ->
  later / 1000 < clock w / 1000 + expiresIn ->
  outcome (checkSessionTokenValidity userId token)
          (set_clock later (after (addUserSession userId token expiresIn) w))
  = inr true.
Proof.
  intros Httl Hroom Hlater. unfold outcome.
  rewrite checkSessionTokenValidity_run. unfold score_of.
  rewrite registry_later_after_add.
  2: done.
  2:{ pose proof (Z.div_mod later 1000 ltac:(lia)).
      pose proof (Z.mod_pos_bound later 1000 ltac:(lia)).
      pose proof (Z.div_mod (clock w) 1000 ltac:(lia)).
      pose proof (Z.mod_pos_bound (clock w) 1000 ltac:(lia)).
      lia. }
  rewrite capped_below by (rewrite length_inserted; lia).
  unfold inserted. rewrite zfind_added. cbn [set_clock clock].
  assert ((later / 1000 <? clock w / 1000 + expiresIn) = true) as ->
    by now apply Z.ltb_lt.
  reflexivity.
Qed.

Lemma add_then_check_valid_witness :
  outcome (checkSessionTokenValidity "u1" "t")
          (set_clock 431999999 (after (addUserSession "u1" "t" 432000) Demo.world1))
  = inr true.
Proof.
  apply add_then_check_valid; [lia | vm_compute; lia | vm_compute; reflexivity].
Defined.

(** X7. From the second of its score on, a token that was added is no
    longer valid, whatever the time to live and the cap did to it. *)
Theorem add_then_check_expired userId token expiresIn w later :
  clock w / 1000 + expiresIn <= later / 1000 ->
  outcome (checkSessionTokenValidity userId token)
          (set_clock later (after (addUserSession userId token expiresIn) w))
  = inr false.
Proof.
  intros Hlater. unfold outcome. rewrite checkSessionTokenValidity_run.
  destruct (score_of _ userId token) as [score|] eqn:Hscore; [|reflexivity].
  assert (score = clock w / 1000 + expiresIn) as ->.
  { revert Hscore. unfold score_of, after. rewrite addUserSession_run.
    unfold registry, set_clock, live_members, live. cbn [snd clock db].
    destruct (expiresIn <=? 0).
    - now rewrite lookup_delete_eq.
    - rewrite lookup_insert_eq. destruct (expired later _); [done|].
      cbn [from_option members]. apply zfind_added_part. }
  cbn [set_clock clock].
  assert ((later / 1000 <? clock w / 1000 + expiresIn) = false) as ->
    by now apply Z.ltb_ge.
  reflexivity.
Qed.

Lemma add_then_check_expired_witness :
  outcome (checkSessionTokenValidity "u1" "t")
          (set_clock 432000000 (after (addUserSession "u1" "t" 432000) Demo.world1))
  = inr false.
Proof. apply add_then_check_expired. vm_compute. discriminate. Defined.

(** X8. While the user has fewer than 8 other sessions, adding a token
    with a positive time to live costs no session: every other token keeps
    its score. *)
Theorem add_keeps_sessions_below_cap userId token expiresIn w token' :
  distinct_members (registry w userId) ->
  0 < expiresIn ->
  (length (zremove token (registry w userId)) < 8)%nat ->
  token' <> token ->
  score_of (after (addUserSession userId token expiresIn) w) userId token'
  = score_of w userId token'.
Proof.
  intros Hdistinct Httl Hroom Hne. unfold score_of.
  rewrite registry_after_add.
  assert ((expiresIn <=? 0) = false) as -> by (apply Z.leb_gt; lia).
  rewrite capped_below by (rewrite length_inserted; lia).
  unfold inserted.
  rewrite (zfind_perm_distinct token'
             ((token, clock w / 1000 + expiresIn) :: zremove token (registry w userId))).
  - simpl. rewrite decide_False by congruence. now apply zfind_zremove_ne.
  - unfold distinct_members. rewrite fmap_cons, NoDup_cons. split.
    + apply zfind_None_not_elem, zfind_zremove.
    + now apply distinct_zremove.
  - symmetry. apply zsort_perm.
Qed.

Lemma add_keeps_sessions_below_cap_witness :
  score_of (after (addUserSession "u1" "t" 432000) Demo.world1) "u1" (Demo.token 1)
  = score_of Demo.world1 "u1" (Demo.token 1).
Proof.
  apply add_keeps_sessions_below_cap.
  - vm_compute. repeat constructor. inversion 1.
  - lia.
  - vm_compute. lia.
  - vm_compute. discriminate.
Defined.

(** X9. No operation of the registry lists a token twice: if the members of
    a user's registry are distinct, they still are after [addUserSession],
    [deleteSessionToken] or [checkSessionTokenValidity], for that user or
    another one. *)
Theorem registry_members_stay_distinct userId token expiresIn w other :
  distinct_members (registry w other) ->
  distinct_members (registry (after (addUserSession userId token expiresIn) w) other)
  /\ distinct_members (registry (after (deleteSessionToken userId token) w) other)
  /\ distinct_members (registry (after (checkSessionTokenValidity userId token) w) other).
Proof.
  intros Hdistinct. split; [|split].
  - destruct (decide (userId = other)) as [<-|Hne].
    + rewrite registry_after_add. destruct (expiresIn <=? 0); [constructor|].
      unfold capped, inserted. now apply distinct_drop, distinct_added.
    + now rewrite registry_after_add_other.
  - rewrite registry_after_delete.
    destruct (decide (userId = other)) as [<-|]; [|done].
    now apply distinct_zremove.
  - rewrite registry_after_check.
    destruct (decide (userId = other)) as [<-|]; [|done].
    destruct (outcome _ w) as [|[|]]; [|done|]; now apply distinct_zremove.
Qed.

Lemma registry_members_stay_distinct_witness :
  distinct_members
    (registry (after (addUserSession "u1" (Demo.token 1) 432000) Demo.world1) "u1").
Proof.
  apply (registry_members_stay_distinct "u1" (Demo.token 1) 432000 Demo.world1 "u1").
  vm_compute. repeat constructor. inversion 1.
Defined.

(** X10. Adding a token the user already has, with a positive time to
    live, stores it once: the registry keeps its size (when it is within
    the cap) and the token gets the new score. *)
Theorem add_again_refreshes userId token expiresIn w old :
  distinct_members (registry w userId) ->
  score_of w userId token = Some old ->
  0 < expiresIn ->
  (length (registry w userId) <= 8)%nat ->
  length (registry (after (addUserSession userId token expiresIn) w) userId)
  = length (registry w userId)
  /\ score_of (after (addUserSession userId token expiresIn) w) userId token
     = Some (clock w / 1000 + expiresIn).
Proof.
  intros Hdistinct Hold Httl Hcap. unfold score_of.
  rewrite registry_after_add.
  assert ((expiresIn <=? 0) = false) as -> by (apply Z.leb_gt; lia).
  pose proof (length_zremove_present _ _ _ Hdistinct Hold) as Hlen.
  rewrite capped_below by (rewrite length_inserted; lia).
  split; [rewrite length_inserted; lia|].
  unfold inserted. apply zfind_added.
Qed.

Lemma add_again_refreshes_witness :
  let w := set_clock 60000 Demo.world1 in
  length (registry (after (addUserSession "u1" (Demo.token 1) 432000) w) "u1") = 1%nat
  /\ score_of (after (addUserSession "u1" (Demo.token 1) 432000) w) "u1" (Demo.token 1)
     = Some 432060.
Proof.
  intros w.
  apply (add_again_refreshes "u1" (Demo.token 1) 432000 w 432000).
  - vm_compute. repeat constructor. inversion 1.
  - vm_compute. reflexivity.
  - lia.
  - vm_compute. lia.
Defined.

(** X20. A token added with a score above every score the user's registry
    holds is never the one the cap evicts: whatever the number of sessions,
    it is valid from then on, until the clock reaches the second of its
    score. *)
Theorem add_newest_survives_cap userId token expiresIn w later :
  0 < expiresIn ->
  (forall e, e ∈ registry w userId -> e.2 < clock w / 1000 + expiresIn) ->
  later / 1000 < clock w / 1000 + expiresIn ->
  outcome (checkSessionTokenValidity userId token)
          (set_clock later (after (addUserSession userId token expiresIn) w))
  = inr true.
Proof.
  intros Httl Hnewest Hlater. unfold outcome.
  rewrite checkSessionTokenValidity_run. unfold score_of.
  rewrite registry_later_after_add.
  2: done.
  2:{ pose proof (Z.div_mod later 1000 ltac:(lia)).
      pose proof (Z.mod_pos_bound later 1000 ltac:(lia)).
      pose proof (Z.div_mod (clock w) 1000 ltac:(lia)).
      pose proof (Z.mod_pos_bound (clock w) 1000 ltac:(lia)).
      lia. }
  assert (Hins : inserted w userId token expiresIn
                 = (zsort (zremove token (registry w userId))
                    ++ [(token, clock w / 1000 + expiresIn)])%list).
  { unfold inserted. cbn [zsort foldr]. fold (zsort (zremove token (registry w userId))).
    apply zinsert_top. intros x Hx. cbn [snd]. apply Hnewest.
    rewrite zsort_perm in Hx. unfold zremove in Hx.
    now apply list_elem_of_filter in Hx as [_ Hx]. }
  unfold capped. rewrite Hins, length_app, drop_app_le by (simpl; lia).
  rewrite zfind_app, zfind_None_drop by apply zfind_zsort_None, zfind_zremove.
  simpl. rewrite decide_True by done. cbn [set_clock clock].
  assert ((later / 1000 <? clock w / 1000 + expiresIn) = true) as ->
    by now apply Z.ltb_lt.
  reflexivity.
Qed.

Lemma add_newest_survives_cap_witness :
  let w8 := Demo.logins "alice" 1000 8 Demo.world0 in
  length (registry w8 "u1") = 8%nat
  /\ outcome (checkSessionTokenValidity "u1" "t")
             (set_clock 9000 (after (addUserSession "u1" "t" 432000) w8))
     = inr true.
Proof.
  intros w8. split; [vm_compute; reflexivity|].
  apply add_newest_survives_cap.
  - lia.
  - intros e He. vm_compute in He.
    repeat (apply elem_of_cons in He as [->|He]; [vm_compute; reflexivity|]).
    inversion He.
  - vm_compute. reflexivity.
Defined.

End RegistryExtras.

(* ===================================================================== *)
(** * The session service: effects, failures and the trip through the cookie *)
(* ===================================================================== *)

Section MoreRuntimeFacts.

(** A [%] that is not followed by two characters cannot be decoded. *)
Lemma uri_units_trailing_percent (n : nat) (s : string) :
  (String.length s <= n)%nat -> uri_units (s +:+ "%") = None.
Proof.
  revert s. induction n as [|n IH]; intros s Hlen.
  - destruct s; [reflexivity|simpl in Hlen; lia].
  - destruct s as [|c s]; [reflexivity|]. simpl in Hlen.
    rewrite string_app_cons. cbn [uri_units].
    destruct (Ascii.eqb c "%").
    + destruct s as [|h [|l s]]; [reflexivity| |].
      { change (String h "" +:+ "%") with (String h (String "%" "")).
        cbn [uri_units]. destruct (hex_value h) as [a|]; [|reflexivity].
        change (hex_value "%") with (@None N). reflexivity. }
      rewrite !string_app_cons.
      destruct (hex_value h), (hex_value l); try reflexivity.
      simpl in Hlen. now rewrite IH by lia.
    + now rewrite IH by lia.
Qed.

Lemma decode_trailing_percent (s : string) : decodeURIComponent (s +:+ "%") = None.
Proof.
  unfold decodeURIComponent.
  now rewrite (uri_units_trailing_percent (String.length s)).
Qed.

End MoreRuntimeFacts.

Section ServiceExtras.

Variable E : Env.

Implicit Types (w : World) (userId token accessToken : string).

(** X11. [login] throws nothing but a [TRPCError]: UNAUTHORIZED, or
    INTERNAL_SERVER_ERROR with the message "Failed to login", and the latter
    only when what was thrown inside was not an [Error]. *)
Theorem login_throws_only_TRPCError accessToken w (e : Thrown) :
  outcome (login E accessToken) w = inl e ->
  (exists message, e = TRPCError UNAUTHORIZED message)
  \/ (e = TRPCError INTERNAL_SERVER_ERROR "Failed to login"
      /\ exists value, outcome (login_try E accessToken) w = inl (NonError value)).
Proof.
  unfold outcome, login, try_catch.
  destruct (login_try E accessToken w) as [[thrown|user] w']; [|discriminate].
  rewrite login_catch_run. cbn [fst]. intros [= <-].
  destruct thrown; eauto.
Qed.

(** X12. A login whose token does not verify, or verifies without an email,
    throws and leaves the world as it was: the profile store is not asked,
    nothing goes to Redis, no cookie is set. *)
Theorem login_without_identity_changes_nothing accessToken w :
  (forall e,
      verifyIdToken E accessToken (clock w) = inl e ->
      login E accessToken w
      = (inl (if instanceof_Error e
              then TRPCError UNAUTHORIZED (Error_message e)
              else TRPCError INTERNAL_SERVER_ERROR "Failed to login"), w))
  /\ (forall verified,
         verifyIdToken E accessToken (clock w) = inr verified ->
         token_email verified = None ->
         login E accessToken w
         = (inl (TRPCError UNAUTHORIZED "The access token is invalid"), w)).
Proof.
  split.
  - intros e He. unfold login, try_catch, login_try. unfold bind at 1.
    rewrite He, login_catch_run. now destruct e.
  - intros verified Hv Hemail. unfold login, try_catch, login_try.
    unfold bind at 1. rewrite Hv, Hemail. reflexivity.
Qed.

(** X13. A login for which the profile store throws or returns no record
    registers no session and sets no cookie: Redis, the headers and the
    random sources are untouched; only the rows of the profile store are
    as the store left them. *)
Theorem login_without_profile_sets_no_session accessToken w verified email r rows :
  verifyIdToken E accessToken (clock w) = inr verified ->
  token_email verified = Some email ->
  let name := match token_name verified with ClaimString s => Some s | _ => None end in
  upsertUser E
    {| onCreate_email := email;
       onCreate_imageUrl := token_picture verified;
       onCreate_name := name;
       onUpdate_imageUrl := token_picture verified;
       onUpdate_name := name |} (users w) = (r, rows) ->
  (r = inr None \/ exists e, r = inl e) ->
  after (login E accessToken) w = set_users rows w
  /\ exists code message, outcome (login E accessToken) w = inl (TRPCError code message).
Proof.
  intros Hv Hemail name Hupsert Hr.
  assert (Hrun : exists code message,
             login E accessToken w = (inl (TRPCError code message), set_users rows w)).
  { unfold login, try_catch, login_try. unfold bind at 1.
    rewrite Hv, Hemail. unfold bind at 1. fold name. rewrite Hupsert.
    destruct Hr as [->|[e ->]].
    - unfold throw. rewrite login_catch_run. eauto.
    - rewrite login_catch_run. destruct e; eauto. }
  destruct Hrun as (code & message & Hrun). unfold after, outcome. rewrite Hrun.
  eauto.
Qed.

(** X14. What a login that returns has done, at the time [now] of the
    call: it drew twice from the random sources, minted the token from the
    user id, [now] and the first draw, sent the batch for that token with
    a time to live of 432000 s, the batch once more with the second
    [exec()] and then the removal the cap asks for, if any, left the
    user's registry capped and the key with 432000 s to live, touched no
    other user's registry, and appended two Set-Cookie headers, the session
    token (percent-encoded) first and the user id second, both dated
    [now + 432000]. *)
Theorem login_effects accessToken w user w' :
  login E accessToken w = (inr user, w') ->
  let userId := User_id user in
  let token := minted E userId w in
  clock w' = clock w
  /\ rng w' = S (S (rng w))
  /\ (sent w' = sent w ++ add_trace w userId token 432000)%list
  /\ registry w' userId = capped (inserted w userId token 432000)
  /\ live_expire (clock w) (db w') (getSessionTokensKey userId)
     = Some (clock w + 432000 * 1000)
  /\ (forall other, userId <> other -> registry w' other = registry w other)
  /\ headers w'
     = (headers w ++
        [secure_cookie E (clock w) 432000 SESSION_TOKEN_COOKIE_KEY
           (encodeURIComponent token);
         secure_cookie E (clock w) 432000 USER_ID_COOKIE_KEY userId])%list.
Proof.
  intros (args & rows & _ & ->)%login_returns. cbv zeta.
  set (w0 := next_draw (next_draw (set_users rows w))).
  change (minted E (User_id user) (set_users rows w))
    with (minted E (User_id user) w).
  set (token := minted E (User_id user) w).
  assert (Hadd : after (addUserSession (User_id user) token 432000) w0
                 = (addUserSession (User_id user) token 432000 w0).2) by reflexivity.
  split; [|split; [|split; [|split; [|split; [|split]]]]].
  - unfold after. now rewrite addUserSession_run.
  - unfold after. now rewrite addUserSession_run.
  - unfold after. now rewrite addUserSession_run.
  - change (registry (after (addUserSession (User_id user) token 432000) w0)
              (User_id user) = capped (inserted w0 (User_id user) token 432000)).
    now rewrite registry_after_add.
  - unfold after. rewrite addUserSession_run. unfold append_header, live_expire.
    cbn [snd db]. change (432000 <=? 0) with false. cbv iota.
    rewrite live_insert; [reflexivity|].
    unfold expired. cbn [expire_at]. apply Z.ltb_ge. change (clock w0) with (clock w). lia.
  - intros other Hne.
    change (registry (after (addUserSession (User_id user) token 432000) w0) other
            = registry w0 other).
    now apply registry_after_add_other.
  - unfold after. rewrite addUserSession_run. unfold append_header, secure_cookie.
    cbn [headers snd]. now rewrite <- app_assoc.
Qed.

(** X15. The cookie of a login validates. When the minted token is ASCII
    (as argon2's encoded hashes are) and the login left the user within the
    cap, [validateSessionToken] with the value of the session cookie and
    the user id returns the positive result, with that token and the
    profile the store has, at any time before the second the session
    expires at. *)
Theorem login_then_validate accessToken w user w' later userInfo :
  login E accessToken w = (inr user, w') ->
  let token := minted E (User_id user) w in
  is_ascii token = true ->
  (length (zremove token (registry w (User_id user))) < 8)%nat ->
  later / 1000 < clock w / 1000 + 432000 ->
  getUserById E (User_id user) (users w') = inr userInfo ->
  outcome (validateSessionToken E (encodeURIComponent token) (User_id user))
          (set_clock later w')
  = inr (Valid userInfo token).
Proof.
  intros (args & rows & _ & ->)%login_returns. cbv zeta.
  change (minted E (User_id user) (set_users rows w))
    with (minted E (User_id user) w).
  set (w0 := next_draw (next_draw (set_users rows w))).
  set (token := minted E (User_id user) w).
  intros Hascii Hroom Hlater Hget. unfold outcome.
  rewrite (validateSessionToken_run E _ _ token) by now apply decode_encode_ascii.
  rewrite checkSessionTokenValidity_run.
  assert (Hscore :
    score_of
      (set_clock later
         (append_header "Set-Cookie"
            (secure_cookie E (clock w) 432000 USER_ID_COOKIE_KEY (User_id user)).2
            (append_header "Set-Cookie"
               (secure_cookie E (clock w) 432000 SESSION_TOKEN_COOKIE_KEY
                  (encodeURIComponent token)).2
               (after (addUserSession (User_id user) token 432000) w0))))
      (User_id user) token
    = Some (clock w / 1000 + 432000)).
  { change (zfind token
              (registry (set_clock later
                           (after (addUserSession (User_id user) token 432000) w0))
                        (User_id user)) = Some (clock w / 1000 + 432000)).
    rewrite registry_later_after_add.
    - rewrite capped_below by (rewrite length_inserted; exact Hroom).
      apply zfind_added.
    - lia.
    - change (clock w0) with (clock w).
      pose proof (Z.div_mod later 1000 ltac:(lia)).
      pose proof (Z.mod_pos_bound later 1000 ltac:(lia)).
      pose proof (Z.div_mod (clock w) 1000 ltac:(lia)).
      pose proof (Z.mod_pos_bound (clock w) 1000 ltac:(lia)).
      lia. }
  rewrite Hscore. cbn [set_clock clock].
  assert ((later / 1000 <? clock w / 1000 + 432000) = true) as ->
    by now apply Z.ltb_lt.
  unfold send, set_clock, append_header in *. cbn [users] in *.
  now rewrite Hget.
Qed.

(** X16. A cookie value that ends in a lone [%] makes
    [validateSessionToken] throw the [URIError] of [decodeURIComponent],
    not return the negative result; nothing is sent to Redis. *)
Theorem validate_malformed_cookie_throws (prefix : string) userId w :
  exists message,
    validateSessionToken E (prefix +:+ "%") userId w = (inl (PlainError message), w).
Proof.
  unfold validateSessionToken. rewrite decode_trailing_percent. eexists. reflexivity.
Qed.

(** X17. For a cookie value that decodes to [token]: a positive result of
    [validateSessionToken] has changed nothing in the store and sent only
    the ZSCORE; after a negative result the token is not in the registry of
    the user; and when the session is valid but the profile store throws,
    [validateSessionToken] throws what the store threw. Headers and profile
    rows are never touched. *)
Theorem validate_effects enc userId token w :
  decodeURIComponent enc = Some token ->
  let w' := after (validateSessionToken E enc userId) w in
  headers w' = headers w /\ users w' = users w
  /\ (forall userInfo sessionToken,
         outcome (validateSessionToken E enc userId) w
         = inr (Valid userInfo sessionToken) ->
         db w' = db w
         /\ sent w'
            = (sent w ++ [Single (ZSCORE (getSessionTokensKey userId) token)])%list)
  /\ (outcome (validateSessionToken E enc userId) w = inr Invalid ->
      score_of w' userId token = None)
  /\ (forall e,
         outcome (checkSessionTokenValidity userId token) w = inr true ->
         getUserById E userId (users w) = inl e ->
         outcome (validateSessionToken E enc userId) w = inl e).
Proof.
  intros Henc. cbv zeta. unfold after, outcome.
  rewrite (validateSessionToken_run E _ _ token _ Henc).
  pose proof (registry_after_check userId token w userId) as Hreg.
  unfold after, outcome in Hreg. rewrite decide_True in Hreg by done.
  rewrite checkSessionTokenValidity_run in *.
  destruct (score_of w userId token) as [score|] eqn:Hscore.
  - destruct (clock w / 1000 <? score) eqn:Hlt; cbn [fst snd] in *.
    + unfold send. cbn [users].
      destruct (getUserById E userId (users w)) as [e|found]; cbn [fst snd];
        (split; [done|]); (split; [done|]); (split; [done|]); split; try done.
      intros e' _ [= ->]. reflexivity.
    + split; [done|]. split; [done|]. split; [done|]. split; [|done].
      intros _. unfold score_of. rewrite Hreg. apply zfind_zremove.
  - cbn [fst snd] in *. split; [done|]. split; [done|]. split; [done|].
    split; [|done]. intros _. unfold score_of. rewrite Hreg. apply zfind_zremove.
Qed.

(** X18. [logout] sends exactly one command, the ZREM of the token, and
    appends exactly two Set-Cookie headers after the ones that were there,
    the session token first and the user id second, each with an empty value
    and the date of the epoch; clock, profile rows and random sources are
    untouched, and so is every other token. *)
Theorem logout_effects userId token w :
  let w' := after (logout E userId token) w in
  let secure := if String.eqb (NODE_ENV E) "production" then "Secure;" else "" in
  sent w' = (sent w ++ [Single (ZREM (getSessionTokensKey userId) token)])%list
  /\ headers w'
     = (headers w ++
        [("Set-Cookie",
          "x-session-token=; HttpOnly; Path=/; SameSite=Lax; " +:+ secure
          +:+ " Expires=Thu, 01 Jan 1970 00:00:00 GMT");
         ("Set-Cookie",
          "x-user-id=; HttpOnly; Path=/; SameSite=Lax; " +:+ secure
          +:+ " Expires=Thu, 01 Jan 1970 00:00:00 GMT")])%list
  /\ clock w' = clock w /\ users w' = users w /\ rng w' = rng w
  /\ (forall other token',
         userId <> other \/ token <> token' ->
         score_of w' other token' = score_of w other token').
Proof.
  cbv zeta. unfold after at 1 2 3 4 5. rewrite logout_run. cbn [snd].
  unfold after, deleteCookie, append_header, send. cbn [snd sent headers clock users rng].
  split; [done|]. split; [now rewrite <- app_assoc|].
  split; [done|]. split; [done|]. split; [done|].
  intros other token' Hne.
  pose proof (registry_after_delete userId token w other) as Hreg.
  unfold after in Hreg. rewrite deleteSessionToken_run in Hreg.
  unfold after. rewrite logout_run. cbn [snd].
  unfold score_of.
  change (registry (after (deleteCookie E USER_ID_COOKIE_KEY)
                      (after (deleteCookie E SESSION_TOKEN_COOKIE_KEY)
                         (send (Single (ZREM (getSessionTokensKey userId) token))
                            (run (clock w) (ZREM (getSessionTokensKey userId) token)
                               (db w)).2 w))) other)
    with (registry (send (Single (ZREM (getSessionTokensKey userId) token))
                      (run (clock w) (ZREM (getSessionTokensKey userId) token)
                         (db w)).2 w) other).
  cbn [snd] in Hreg. rewrite Hreg.
  destruct (decide (userId = other)) as [<-|]; [|done].
  destruct Hne as [|Hne]; [done|]. apply zfind_zremove_ne. congruence.
Qed.

End ServiceExtras.

Lemma login_without_profile_sets_no_session_witness :
  after (login Demo.env_no_record "alice") Demo.world1 = Demo.world1.
Proof.
  apply (login_without_profile_sets_no_session Demo.env_no_record "alice" Demo.world1
           {| token_email := Some "alice@example.com";
              token_name := ClaimString "alice"; token_picture := None |}
           "alice@example.com" (inr None) (users Demo.world1)).
  - reflexivity.
  - reflexivity.
  - reflexivity.
  - left. reflexivity.
Defined.

Lemma login_effects_witness :
  registry Demo.world1 "u1" = capped (inserted Demo.world0 "u1" (Demo.token 1) 432000)
  /\ rng Demo.world1 = 2%nat.
Proof.
  pose proof (login_effects Demo.env "alice" Demo.world0
                {| User_id := "u1"; User_email := "alice@example.com";
                   User_name := Some "alice"; User_imageUrl := None |}
                Demo.world1) as H.
  destruct H as (_ & Hrng & _ & Hreg & _); [vm_compute; reflexivity|].
  split; [exact Hreg | exact Hrng].
Defined.

Lemma login_then_validate_witness :
  outcome (validateSessionToken Demo.env (encodeURIComponent (Demo.token 1)) "u1")
          (set_clock 431999999 Demo.world1)
  = inr (Valid (Some {| User_id := "u1"; User_email := "alice@example.com";
                        User_name := Some "alice"; User_imageUrl := None |})
               (Demo.token 1)).
Proof.
  apply (login_then_validate Demo.env "alice" Demo.world0
           {| User_id := "u1"; User_email := "alice@example.com";
              User_name := Some "alice"; User_imageUrl := None |}
           Demo.world1 431999999).
  - vm_compute. reflexivity.
  - vm_compute. reflexivity.
  - vm_compute. lia.
  - vm_compute. reflexivity.
  - vm_compute. reflexivity.
Defined.

Lemma validate_effects_witness :
  let w := set_clock 432000000 Demo.world1 in
  outcome (validateSessionToken Demo.env (encodeURIComponent (Demo.token 1)) "u1") w
  = inr Invalid
  /\ score_of (after (validateSessionToken Demo.env
                        (encodeURIComponent (Demo.token 1)) "u1") w)
       "u1" (Demo.token 1) = None
  /\ db (after (validateSessionToken Demo.env
                  (encodeURIComponent (Demo.token 1)) "u1") Demo.world1)
     = db Demo.world1.
Proof.
  intros w.
  pose proof (validate_effects Demo.env (encodeURIComponent (Demo.token 1)) "u1"
                (Demo.token 1) w) as Hexpired.
  pose proof (validate_effects Demo.env (encodeURIComponent (Demo.token 1)) "u1"
                (Demo.token 1) Demo.world1) as Hvalid.
  destruct Hexpired as (_ & _ & _ & Hgone & _); [vm_compute; reflexivity|].
  destruct Hvalid as (_ & _ & Hread & _); [vm_compute; reflexivity|].
  split; [vm_compute; reflexivity|]. split.
  - apply Hgone. vm_compute. reflexivity.
  - eapply Hread. vm_compute. reflexivity.
Defined.

Lemma logout_effects_witness :
  score_of (after (logout Demo.env "u1" "t") Demo.world1) "u1" (Demo.token 1)
  = score_of Demo.world1 "u1" (Demo.token 1).
Proof.
  apply (logout_effects Demo.env "u1" "t" Demo.world1).
  right. vm_compute. discriminate.
Defined.

Lemma login_throws_only_TRPCError_witness :
  exists message, TRPCError UNAUTHORIZED "Failed to login" = TRPCError UNAUTHORIZED message.
Proof.
  destruct (login_throws_only_TRPCError Demo.env_no_record "alice" Demo.world0
              (TRPCError UNAUTHORIZED "Failed to login"))
    as [H|[H _]].
  - vm_compute. reflexivity.
  - exact H.
  - discriminate H.
Defined.

Lemma login_without_identity_changes_nothing_witness :
  login Demo.env "" Demo.world1
  = (inl (TRPCError UNAUTHORIZED "Decoding Firebase ID token failed"), Demo.world1)
  /\ login Demo.env "anonymous" Demo.world1
     = (inl (TRPCError UNAUTHORIZED "The access token is invalid"), Demo.world1).
Proof.
  pose proof (login_without_identity_changes_nothing Demo.env "" Demo.world1)
    as [Hthrows _].
  pose proof (login_without_identity_changes_nothing Demo.env "anonymous" Demo.world1)
    as [_ Hemail].
  split.
  - apply (Hthrows (PlainError "Decoding Firebase ID token failed")). reflexivity.
  - eapply Hemail; reflexivity.
Defined.

(* ===================================================================== *)
(** * The context of a server-side call *)
(* ===================================================================== *)

Section ContextExtras.

Implicit Types (h request : list (string * string)) (name : string).

Lemma same_name_trans_false a b c :
  same_name a b = true -> same_name c b = false -> same_name a c = false.
Proof.
  unfold same_name. intros Hab%String.eqb_eq Hcb%String.eqb_neq.
  apply String.eqb_neq. congruence.
Qed.

Lemma same_name_eq a b c :
  same_name a b = true -> same_name a c = same_name b c.
Proof. unfold same_name. now intros ->%String.eqb_eq. Qed.

Lemma filter_same_after_set name value other h :
  same_name other name = false ->
  List.filter (fun x => same_name x.1 other) (Headers_set name value h)
  = List.filter (fun x => same_name x.1 other) h.
Proof.
  intros Hother. induction h as [|[n v] h IH]; simpl.
  - assert (same_name name other = false) as ->; [|done].
    unfold same_name in *. apply String.eqb_neq. apply String.eqb_neq in Hother.
    congruence.
  - destruct (same_name n name) eqn:Hn; simpl.
    + rewrite (same_name_trans_false _ _ _ Hn Hother).
      clear IH. induction h as [|[n' v'] h IH]; [done|]. simpl.
      destruct (same_name n' name) eqn:Hn'; simpl.
      * now rewrite (same_name_trans_false _ _ _ Hn' Hother).
      * now rewrite IH.
    + now rewrite IH.
Qed.

Lemma filter_name_after_set name value asked h :
  same_name asked name = true ->
  exists n, List.filter (fun x => same_name x.1 asked) (Headers_set name value h)
            = [(n, value)].
Proof.
  intros Hasked.
  assert (Hsame : forall n, same_name n asked = same_name n name).
  { intros n. unfold same_name in *. apply String.eqb_eq in Hasked. now rewrite Hasked. }
  induction h as [|[n v] h IH]; simpl.
  - rewrite Hsame. unfold same_name. rewrite String.eqb_refl. eauto.
  - destruct (same_name n name) eqn:Hn; simpl.
    + rewrite Hsame, Hn. exists n. f_equal.
      clear IH. induction h as [|[n' v'] h IH]; [done|]. simpl.
      destruct (same_name n' name) eqn:Hn'; simpl; [done|].
      now rewrite Hsame, Hn'.
    + now rewrite Hsame, Hn.
Qed.

(** X19. Whatever headers the incoming request carries, the context of a
    server-side call says the call comes from a server component: reading
    [x-trpc-source], in any case of letters, gives exactly "rsc", also when
    the request had that header once or several times; every other header
    reads as in the request. *)
Theorem createContext_marks_source request :
  (forall name,
      same_name name "x-trpc-source" = true ->
      Headers_get name (createContext request) = Some "rsc")
  /\ (forall name,
         same_name name "x-trpc-source" = false ->
         Headers_get name (createContext request) = Headers_get name request).
Proof.
  unfold createContext, Headers_get. split.
  - intros name Hname.
    destruct (filter_name_after_set "x-trpc-source" "rsc" name request Hname)
      as [n ->].
    reflexivity.
  - intros name Hname. now rewrite filter_same_after_set.
Qed.

Lemma createContext_marks_source_witness :
  let request := [("host", "example.com"); ("X-Trpc-Source", "browser");
                  ("cookie", "a=1"); ("x-trpc-source", "spoofed")] in
  Headers_get "X-TRPC-SOURCE" (createContext request) = Some "rsc"
  /\ Headers_get "x-trpc-source" request = Some "browser, spoofed"
  /\ Headers_get "cookie" (createContext request) = Headers_get "cookie" request.
Proof.
  intros request.
  pose proof (createContext_marks_source request) as [Hsource Hother].
  split; [apply Hsource; reflexivity|].
  split; [reflexivity | apply Hother; reflexivity].
Defined.

End ContextExtras.
